(** * The chunked parallel batch processor of [ban.commands.helpers]

    A shallow embedding of [collect_report], [ChunkedPool] and [batch]
    (src/ban/commands/helpers.py) together with the parts of the Python
    runtime they lean on: [range], [itertools.islice], the inherited
    [Pool._get_tasks], and the worker loop of [multiprocessing.pool]. *)

From Stdlib Require Import String Ascii.
From Stdlib Require Import List ZArith Lia Permutation PeanoNat.
From Equations Require Import Equations.
Import ListNotations.

Set Implicit Arguments.
Open Scope Z_scope.

(** ** Python values and exceptions *)

(** The members of [e.args] that the orchestrator may meet. *)
Inductive PyArg : Type :=
| ArgStr (s : string)
| ArgInt (n : Z)
| ArgNone.

Record PyExc : Type := mkExc { exc_class : string; exc_args : list PyArg }.

(** A call either returns a value or raises. *)
Inductive PyResult (A : Type) : Type :=
| Ok (a : A)
| Raise (e : PyExc).
Arguments Ok {A} a.
Arguments Raise {A} e.

Definition ValueError (msg : string) : PyExc := mkExc "ValueError" [ArgStr msg].
Definition IndexError (msg : string) : PyExc := mkExc "IndexError" [ArgStr msg].
Definition TypeError (msg : string) : PyExc := mkExc "TypeError" [ArgStr msg].

Definition is_ok {A} (r : PyResult A) : bool :=
  match r with Ok _ => true | Raise _ => false end.

(** [inspect] keeps the equation of a scrutinee for termination proofs. *)
Definition inspect {A} (a : A) : {b : A | a = b} := exist _ a eq_refl.

(** ** [range(start, stop, step)] *)

(** The length CPython computes for a range with a non-zero step. *)
Definition range_len (start stop step : Z) : nat :=
  if 0 <? step then
    if start <? stop then Z.to_nat ((stop - start - 1) / step + 1) else O
  else
    if stop <? start then Z.to_nat ((start - stop - 1) / (- step) + 1) else O.

Definition py_range (start stop step : Z) : PyResult (list Z) :=
  if step =? 0 then Raise (ValueError "range() arg 3 must not be zero")
  else Ok (map (fun k => start + Z.of_nat k * step)
               (seq 0 (range_len start stop step))).

(** [ceil(n / c)] on naturals, the chunk count the specification names. *)
Definition ceil_div (n c : nat) : nat := ((n + c - 1) / c)%nat.

Section Model.

Context {Item Result Entry : Type}.

(** ** The inputs of [batch] *)

(** What [_get_tasks_from_query] uses of a peewee [SelectQuery]: [count()]
    and [limit(n).offset(k)], the latter read with [list(...)]. *)
Record SelectQuery : Type := mkQuery {
  count : nat;
  limit_offset : Z -> Z -> list Item
}.

(** A query over a fixed, ordered table. *)
Definition window (rows : list Item) (lim off : Z) : list Item :=
  firstn (Z.to_nat lim) (skipn (Z.to_nat off) rows).

Definition table_query (rows : list Item) : SelectQuery :=
  mkQuery (length rows) (window rows).

(** A query whose [count()] answers [reported] whatever the table holds. *)
Definition stale_query (reported : nat) (rows : list Item) : SelectQuery :=
  mkQuery reported (window rows).

(** A source is consistent with [rows] when its count and its windows
    are those of the table. *)
Definition consistent (q : SelectQuery) (rows : list Item) : Prop :=
  count q = length rows /\
  forall lim off, 0 <= lim -> 0 <= off -> limit_offset q lim off = window rows lim off.

(** [isinstance(iterable, SelectQuery)] decides the chunk source. *)
Inductive Iterable : Type :=
| Plain (items : list Item)
| Query (q : SelectQuery).

(** The items an input holds, in order: those of the sequence, or the
    rows of the table a consistent source pages through. *)
Definition source_of (iterable : Iterable) (items : list Item) : Prop :=
  match iterable with
  | Plain l => l = items
  | Query q => consistent q items
  end.

(** ** Chunk sources *)

(** [ChunkedPool._get_tasks_from_query]: one window per index of
    [range(0, query.count(), chunksize)]. The generator body, [range]
    included, runs when the first task is asked for. *)
Definition _get_tasks_from_query (query : SelectQuery) (chunksize : Z)
  : PyResult (list (list Item)) :=
  match py_range 0 (Z.of_nat (count query)) chunksize with
  | Raise e => Raise e
  | Ok idxs => Ok (map (fun idx => limit_offset query chunksize idx) idxs)
  end.

(** The loop of [Pool._get_tasks]:
    [while 1: x = tuple(islice(it, size)); if not x: return; yield (func, x)],
    [it] being the iterator's remaining items. *)
Equations? get_tasks_loop (size : nat) (it : list Item) : list (list Item)
  by wf (length it) lt :=
  get_tasks_loop size it with inspect (firstn size it) := {
    | exist _ [] _ => [];
    | exist _ (x :: xs) Hx => (x :: xs) :: get_tasks_loop size (skipn size it) }.
Proof.
  destruct size as [|n]; [discriminate|].
  destruct it as [|a it]; [discriminate|].
  simpl. pose proof (length_skipn n it). lia.
Qed.

(** [sys.maxsize], as CPython has it on a 64-bit platform. *)
Definition sys_maxsize : Z := 9223372036854775807.

(** [Pool._get_tasks]: [islice] refuses a stop that is negative or above
    [sys.maxsize], at the first turn of the loop. *)
Definition _get_tasks (it : list Item) (size : Z) : PyResult (list (list Item)) :=
  if ((size <? 0) || (sys_maxsize <? size))%bool then
    Raise (ValueError "Stop argument for islice() must be None or an integer: 0 <= x <= sys.maxsize.")
  else Ok (get_tasks_loop (Z.to_nat size) it).

(** The chunk sizes [islice] takes, for the input that goes through it. *)
Definition chunksize_accepted (iterable : Iterable) (chunksize : Z) : Prop :=
  match iterable with
  | Plain _ => chunksize <= sys_maxsize
  | Query _ => True
  end.

(** The choice made at the head of [ChunkedPool.imap_unordered]. *)
Definition task_batches (iterable : Iterable) (chunksize : Z)
  : PyResult (list (list Item)) :=
  match iterable with
  | Query q => _get_tasks_from_query q chunksize
  | Plain items => _get_tasks items chunksize
  end.

(** ** The Reporter *)

(** Modelled from the spec: the Reporter class behind
    [context.get('reporter')] is not among the sources. Its buffer
    [_reports] is the sequence of recorded entries, in insertion order. *)
Record Reporter : Type := mkReporter { _reports : list Entry }.

(** Modelled from the spec: [record(entry)] appends one entry to the buffer. *)
Definition record (entry : Entry) (reporter : Reporter) : Reporter :=
  mkReporter (_reports reporter ++ [entry]).

(** Modelled from the spec: [clear()] empties the buffer. *)
Definition clear (reporter : Reporter) : Reporter := mkReporter [].

(** Modelled from the spec: [merge(entries)] appends the entries of another
    Reporter to this one. *)
Definition merge (reporter : Reporter) (reports : list Entry) : Reporter :=
  mkReporter (_reports reporter ++ reports).

(** Modelled from the spec: a Reporter a process creates at first use. *)
Definition fresh_reporter : Reporter := mkReporter [].

(** ** The worker side *)

(** The user function is called as [func( *chunk )]. It reaches the Reporter
    of its process through the ambient context, so it is a function of
    the chunk and of that Reporter's state; it returns or raises, and leaves
    the Reporter in a new state either way. *)
Definition UserFunc : Type :=
  list Item -> Reporter -> PyResult (list Result) * Reporter.

(** What crosses back from a worker for one chunk: [(results, reports)]. *)
Definition ResultBatch : Type := (list Result * list Entry)%type.

(** [collect_report(func, chunk)], run with the process Reporter in state
    [reporter]. A raise of [func] leaves the function at once: neither
    the copy nor [reporter.clear()] is reached. *)
Definition collect_report (func : UserFunc) (chunk : list Item) (reporter : Reporter)
  : PyResult ResultBatch * Reporter :=
  match func chunk reporter with
  | (Ok results, reporter1) =>
      let reports := _reports reporter1 in
      (Ok (results, reports), clear reporter1)
  | (Raise e, reporter1) => (Raise e, reporter1)
  end.

(** One worker process: it runs the tasks it pulls one after the other,
    sends [(True, value)] or [(False, e)] for each and goes on, its
    Reporter living as long as the process. *)
Fixpoint worker (func : UserFunc) (reporter : Reporter) (chunks : list (list Item))
  : list (PyResult ResultBatch) * Reporter :=
  match chunks with
  | [] => ([], reporter)
  | chunk :: rest =>
      let '(out, reporter1) := collect_report func chunk reporter in
      let '(outs, reporter2) := worker func reporter1 rest in
      (out :: outs, reporter2)
  end.

(** The state in which each chunk of a worker finds the Reporter. *)
Fixpoint reporter_at_start (func : UserFunc) (reporter : Reporter)
  (chunks : list (list Item)) : list Reporter :=
  match chunks with
  | [] => []
  | chunk :: rest =>
      reporter :: reporter_at_start func (snd (collect_report func chunk reporter)) rest
  end.

(** ** The pool *)

(** What the operating system decides in a run: which worker pulls the
    task of each submission index, and in which order the outcomes reach
    the result iterator. *)
Record Schedule : Type := mkSchedule {
  assign : nat -> nat;
  arrival : list nat
}.

Definition valid_schedule (processes ntasks : nat) (sched : Schedule) : Prop :=
  (forall i, (i < ntasks)%nat -> (assign sched i < processes)%nat) /\
  Permutation (arrival sched) (seq 0 ntasks).

(** The schedule of a single worker handing results back in submission order. *)
Definition sequential (ntasks : nat) : Schedule :=
  mkSchedule (fun _ => O) (seq 0 ntasks).

Definition set_reporter (st : nat -> Reporter) (w : nat) (r : Reporter)
  : nat -> Reporter :=
  fun w' => if Nat.eqb w' w then r else st w'.

(** The tasks [(i, collect_report, (func, chunk))] in submission order,
    each run by the worker the schedule names, on that worker's Reporter. *)
Fixpoint run_tasks (func : UserFunc) (assign : nat -> nat) (st : nat -> Reporter)
  (i : nat) (chunks : list (list Item)) : list (PyResult ResultBatch) :=
  match chunks with
  | [] => []
  | chunk :: rest =>
      let w := assign i in
      let '(out, r) := collect_report func chunk (st w) in
      out :: run_tasks func assign (set_reporter st w r) (S i) rest
  end.

(** The outcomes as the result iterator hands them out. *)
Definition in_arrival_order {A} (outs : list A) (arrival : list nat) : list A :=
  flat_map (fun i => match nth_error outs i with Some o => [o] | None => [] end)
           arrival.

(** [ChunkedPool.imap_unordered(func, iterable, chunksize)] under a
    schedule: the stream of completed batches, or the exception with
    which the task generator stopped inside the pool's task thread. *)
Definition imap_unordered (sched : Schedule) (func : UserFunc)
  (iterable : Iterable) (chunksize : Z)
  : PyResult (list (PyResult ResultBatch)) :=
  match task_batches iterable chunksize with
  | Raise e => Raise e
  | Ok chunks =>
      Ok (in_arrival_order
            (run_tasks func (assign sched) (fun _ => fresh_reporter) 0 chunks)
            (arrival sched))
  end.

(** ** The orchestrator *)

(** What [batch] does that its caller or the terminal can observe. *)
Inductive Event : Type :=
| Merge (reports : list Entry)
| BarStep (step : nat)
| Yield (item : Result)
| BarFinish
| Print (s : string)
| Terminate.

(** A generator body: the events so far and how it ended. *)
Definition Gen (A : Type) : Type := (list Event * PyResult A)%type.

Definition ret {A} (a : A) : Gen A := ([], Ok a).

Definition bind {A B} (m : Gen A) (k : A -> Gen B) : Gen B :=
  match m with
  | (tr, Ok a) => let '(tr', r) := k a in (tr ++ tr', r)
  | (tr, Raise e) => (tr, Raise e)
  end.

Definition emit (ev : Event) : Gen unit := ([ev], Ok tt).

Definition raise {A} (e : PyExc) : Gen A := ([], Raise e).

Definition try_except {A} (body : Gen A) (handler : PyExc -> Gen A) : Gen A :=
  match body with
  | (tr, Ok a) => (tr, Ok a)
  | (tr, Raise e) => let '(tr', r) := handler e in (tr ++ tr', r)
  end.

Notation "x <- m ;; k" := (bind m (fun x => k))
  (at level 61, m at next level, right associativity).
Notation "m ;; k" := (bind m (fun _ => k))
  (at level 61, right associativity).

(** [for x in stream: body], [next(stream)] raising what a worker raised. *)
Fixpoint for_in {A} (stream : list (PyResult A)) (body : A -> Gen unit) : Gen unit :=
  match stream with
  | [] => ret tt
  | Ok a :: rest => body a ;; for_in rest body
  | Raise e :: _ => raise e
  end.

(** [yield from results]. *)
Definition yield_from (results : list Result) : Gen unit :=
  (map Yield results, Ok tt).

Definition newline : string := String (ascii_of_nat 10) EmptyString.

(** [e.args[0]]. *)
Definition args0 (e : PyExc) : Gen PyArg :=
  match exc_args e with
  | a :: _ => ret a
  | [] => raise (IndexError "tuple index out of range")
  end.

(** [s + v] for a string [s]; the wording of the TypeError varies with the
    interpreter. *)
Definition str_add (s : string) (v : PyArg) : Gen string :=
  match v with
  | ArgStr t => ret (s ++ t)%string
  | _ => raise (TypeError "can only concatenate str to str")
  end.

(** The body of the [for] loop of [batch], for one batch received. *)
Definition batch_step (b : ResultBatch) : Gen unit :=
  let '(results, reports) := b in
  emit (Merge reports) ;;
  emit (BarStep (length results)) ;;
  yield_from results.

(** The [except Exception as e] clause of [batch]. *)
Definition batch_except (e : PyExc) : Gen unit :=
  v <- args0 e ;;
  msg <- str_add newline v ;;
  emit (Print msg) ;;
  emit Terminate.

(** The [try] statement of [batch], over the stream [imap_unordered] returned. *)
Definition batch_try (stream : list (PyResult ResultBatch)) : Gen unit :=
  try_except
    (for_in stream batch_step ;;
     emit BarFinish)
    batch_except.

(** [with ChunkedPool(processes=workers) as pool: ...]; leaving the block
    calls [pool.terminate()]. *)
Definition with_pool (body : Gen unit) : Gen unit :=
  let '(tr, r) := body in (tr ++ [Terminate], r).

(** A whole run of the generator [batch(func, iterable, chunksize)], read
    to its end. *)
Inductive BatchRun : Type :=
| Finished (trace : list Event) (outcome : PyResult unit)
| TaskFeedFailed (e : PyExc).

Definition batch (workers : nat) (sched : Schedule) (func : UserFunc)
  (iterable : Iterable) (chunksize : Z) : BatchRun :=
  if Nat.eqb workers 0 then
    Finished [] (Raise (ValueError "Number of processes must be at least 1"))
  else
    match imap_unordered sched func iterable chunksize with
    | Raise e => TaskFeedFailed e
    | Ok stream => let '(tr, r) := with_pool (batch_try stream) in Finished tr r
    end.

(** ** Reading a trace *)

(** The orchestrator's side of the world: the main Reporter, the progress
    bar and the terminal. *)
Record Orchestrator : Type := mkOrch {
  main_reporter : Reporter;
  bar_done : nat;
  bar_finished : bool;
  printed : list string;
  terminated : bool
}.

Definition start (reporter : Reporter) : Orchestrator :=
  mkOrch reporter 0 false [] false.

Definition apply_event (st : Orchestrator) (ev : Event) : Orchestrator :=
  match ev with
  | Merge reports =>
      mkOrch (merge (main_reporter st) reports) (bar_done st) (bar_finished st)
             (printed st) (terminated st)
  | BarStep n =>
      mkOrch (main_reporter st) (bar_done st + n) (bar_finished st)
             (printed st) (terminated st)
  | Yield _ => st
  | BarFinish =>
      mkOrch (main_reporter st) (bar_done st) true (printed st) (terminated st)
  | Print s =>
      mkOrch (main_reporter st) (bar_done st) (bar_finished st)
             (printed st ++ [s]) (terminated st)
  | Terminate =>
      mkOrch (main_reporter st) (bar_done st) (bar_finished st) (printed st) true
  end.

Definition run_events (st : Orchestrator) (tr : list Event) : Orchestrator :=
  fold_left apply_event tr st.

(** The items the caller receives, in order. *)
Definition yielded (tr : list Event) : list Result :=
  flat_map (fun ev => match ev with Yield x => [x] | _ => [] end) tr.

(** Each yielded item with the orchestrator's state at the moment the
    caller is handed it. *)
Fixpoint snapshots (st : Orchestrator) (tr : list Event)
  : list (Result * Orchestrator) :=
  match tr with
  | [] => []
  | Yield x :: rest => (x, st) :: snapshots st rest
  | ev :: rest => snapshots (apply_event st ev) rest
  end.

(** The batches the orchestrator receives before the first failure. *)
Fixpoint received {A} (stream : list (PyResult A)) : list A :=
  match stream with
  | Ok a :: rest => a :: received rest
  | _ => []
  end.

(** The first failure in a stream, if any. *)
Fixpoint first_failure {A} (stream : list (PyResult A)) : option PyExc :=
  match stream with
  | [] => None
  | Ok _ :: rest => first_failure rest
  | Raise e :: _ => Some e
  end.

(** What the loop body of [batch] does with one batch. *)
Definition batch_events (b : ResultBatch) : list Event :=
  Merge (snd b) :: BarStep (length (fst b)) :: map Yield (fst b).

(** The reports of a run of batches, in the order received. *)
Definition merged_reports (bs : list ResultBatch) : list Entry :=
  concat (map snd bs).

(** The number of result items in a run of batches. *)
Definition results_count (bs : list ResultBatch) : nat :=
  list_sum (map (fun b => length (fst b)) bs).




(** The user function returns on every chunk, whatever the Reporter holds. *)
Definition never_raises (func : UserFunc) : Prop :=
  forall chunk reporter, is_ok (fst (func chunk reporter)) = true.


End Model.

Arguments Reporter : clear implicits.
Arguments Event : clear implicits.
Arguments SelectQuery : clear implicits.
Arguments Iterable : clear implicits.
Arguments UserFunc : clear implicits.
Arguments ResultBatch : clear implicits.
Arguments Gen : clear implicits.
Arguments BatchRun : clear implicits.
Arguments Orchestrator : clear implicits.

(** ** Sample user functions *)

Definition boom : PyExc := mkExc "RuntimeError" [ArgStr "boom"].

(** Returns its chunk and records nothing. *)
Definition echo : UserFunc nat nat nat :=
  fun chunk reporter => (Ok chunk, reporter).

(** Records each item it is given, then raises when the chunk holds a 0
    and returns the chunk otherwise. *)
Definition log_then_check : UserFunc nat nat nat :=
  fun chunk reporter =>
    let reporter1 := fold_left (fun r x => record x r) chunk reporter in
    if existsb (Nat.eqb 0) chunk then (Raise boom, reporter1)
    else (Ok chunk, reporter1).

(** A user function that hands back, as its one result, the chunk it was
    called with, and leaves the Reporter alone. *)
Definition spy {Item Entry : Type} : UserFunc Item (list Item) Entry :=
  fun chunk reporter => (Ok [chunk], reporter).

(** A user function that maps [f] over the items of its chunk and leaves
    the Reporter alone. *)
Definition itemwise {Item Result Entry : Type} (f : Item -> Result)
  : UserFunc Item Result Entry :=
  fun chunk reporter => (Ok (map f chunk), reporter).

(** ** The terminal *)

(** Text is a sequence of code points below 256. [str.lower()] on such
    text moves A-Z and the capital letters of Latin-1 (all of 192-222 but
    the multiplication sign) 32 places up and leaves the rest. *)
Definition lower_char (c : ascii) : ascii :=
  let n := nat_of_ascii c in
  if (((65 <=? n) && (n <=? 90)) ||
      ((192 <=? n) && (n <=? 222) && negb (n =? 215)))%nat%bool
  then ascii_of_nat (n + 32) else c.

Fixpoint py_lower (s : string) : string :=
  match s with
  | EmptyString => EmptyString
  | String c rest => String (lower_char c) (py_lower rest)
  end.

(** What a read of the terminal meets: a line, or Ctrl-C. Past the end of
    the list the terminal is at end of file. *)
Inductive Key : Type :=
| Line (s : string)
| Interrupt.

(** The same key, typed in lower case. *)
Definition lower_key (k : Key) : Key :=
  match k with Line s => Line (py_lower s) | Interrupt => Interrupt end.

(** What the functions of the command line do to the terminal. *)
Inductive TermEvent : Type :=
| Asked (hidden : bool) (prompt : string)
| Printed (s : string)
| ErrWritten (s : string).

(** A command-line routine reads keys and ends with the events it caused,
    its outcome and the keys it left unread. *)
Definition Term (A : Type) : Type :=
  list Key -> list TermEvent * PyResult A * list Key.

Definition SystemExit (code : Z) : PyExc := mkExc "SystemExit" [ArgInt code].

(** [abort(msg)]: write a newline and [msg] to stderr, then [sys.exit(1)]. *)
Definition abort {A} (msg : string) : Term A :=
  fun stdin => ([ErrWritten (newline ++ msg)%string], Raise (SystemExit 1), stdin).

(** The events of a routine, with one more in front. *)
Definition after {A} (ev : TermEvent) (r : list TermEvent * PyResult A * list Key)
  : list TermEvent * PyResult A * list Key :=
  let '(evs, out, rest) := r in (ev :: evs, out, rest).

(** ** [confirm] *)

(** The bracketed hint of [confirm]: [default] is [None], [True] or [False]. *)
Definition default_text (default : option bool) : string :=
  match default with
  | Some true => "Yn"
  | Some false => "yN"
  | None => "yn"
  end.

Definition confirm_prompt (text : string) (default : option bool) : string :=
  (text ++ " [" ++ default_text default ++ "]: ")%string.

(** The three tests at the foot of the loop of [confirm], on one line. *)
Definition confirm_answer (default : option bool) (value : string) : option bool :=
  if (String.eqb (py_lower value) "y" || String.eqb (py_lower value) "yes")%bool
  then Some true
  else if (String.eqb (py_lower value) "n" || String.eqb (py_lower value) "no")%bool
  then Some false
  else if String.eqb value "" then default
  else None.

(** [confirm(text, default)]: one turn of the [while 1] loop per key. *)
Fixpoint confirm (text : string) (default : option bool) (stdin : list Key)
  : list TermEvent * PyResult bool * list Key :=
  match stdin with
  | [] => after (Asked false (confirm_prompt text default)) (abort "Aborted." [])
  | Interrupt :: rest =>
      after (Asked false (confirm_prompt text default)) (abort "Aborted." rest)
  | Line value :: rest =>
      match confirm_answer default value with
      | Some b => ([Asked false (confirm_prompt text default)], Ok b, rest)
      | None => after (Asked false (confirm_prompt text default))
                      (confirm text default rest)
      end
  end.

(** ** [prompt] *)

(** [result == confirm], [confirm] being a string. *)
Definition eq_str (result : PyArg) (confirm : string) : bool :=
  match result with
  | ArgStr s => String.eqb s confirm
  | _ => false
  end.

(** The text [prompt] writes when [coerce] raises a ValueError: the
    format argument is the builtin [type], whatever [coerce] is. The
    quotes around the class name are the character 39. *)
Definition wrong_value_message : string :=
  ("Wrong value for type <class " ++ String (ascii_of_nat 39) "type"
   ++ String (ascii_of_nat 39) ">")%string.

(** [prompt(text, default, confirmation, coerce, hidden)]. [default] is
    [None] for the Ellipsis, [coerce] is [None] when no callable is given.
    The nested loops read one key per turn: [pending] is [None] while the
    value is asked for and holds the value while its confirmation is. *)
Fixpoint prompt_loop (text : string) (default : option PyArg) (confirmation : bool)
  (coerce : option (string -> PyResult PyArg)) (hidden : bool)
  (pending : option PyArg) (stdin : list Key)
  : list TermEvent * PyResult PyArg * list Key :=
  match pending with
  | None =>
      match stdin with
      | [] => after (Asked hidden (text ++ ": ")) (abort "Aborted." [])
      | Interrupt :: rest => after (Asked hidden (text ++ ": ")) (abort "Aborted." rest)
      | Line result :: rest =>
          after (Asked hidden (text ++ ": "))
            (if String.eqb result "" then
               match default with
               | Some d => ([], Ok d, rest)
               | None => prompt_loop text default confirmation coerce hidden None rest
               end
             else
               match match coerce with
                     | Some c => c result
                     | None => Ok (ArgStr result)
                     end with
               | Raise e =>
                   if String.eqb (exc_class e) "ValueError" then
                     after (ErrWritten wrong_value_message)
                       (prompt_loop text default confirmation coerce hidden None rest)
                   else ([], Raise e, rest)
               | Ok v =>
                   if confirmation then
                     prompt_loop text default confirmation coerce hidden (Some v) rest
                   else ([], Ok v, rest)
               end)
      end
  | Some result =>
      match stdin with
      | [] => after (Asked hidden (text ++ " (again): ")) (abort "Aborted." [])
      | Interrupt :: rest =>
          after (Asked hidden (text ++ " (again): ")) (abort "Aborted." rest)
      | Line confirm :: rest =>
          after (Asked hidden (text ++ " (again): "))
            (if String.eqb confirm "" then
               prompt_loop text default confirmation coerce hidden (Some result) rest
             else if eq_str result confirm then ([], Ok result, rest)
             else after (Printed "Error: the two entered values do not match")
                    (prompt_loop text default confirmation coerce hidden (Some result) rest))
      end
  end.

Definition prompt (text : string) (default : option PyArg) (confirmation : bool)
  (coerce : option (string -> PyResult PyArg)) (hidden : bool) : Term PyArg :=
  prompt_loop text default confirmation coerce hidden None.

(** ** [nodiff] *)

(** The part of the process the decorator touches: the class attribute
    [Diff.ACTIVE], beside everything else. *)
Record World (S : Type) : Type := mkWorld { diff_active : bool; others : S }.
Arguments mkWorld {S} _ _.
Arguments diff_active {S} _.
Arguments others {S} _.

(** [nodiff(func)(...)]: [func] runs in the world and may return or raise. *)
Definition nodiff {S A : Type} (func : World S -> PyResult A * World S)
  : World S -> PyResult A * World S :=
  fun w =>
    match func (mkWorld false (others w)) with
    | (Ok res, w1) => (Ok res, mkWorld true (others w1))
    | (Raise e, w1) => (Raise e, w1)
    end.

(** ** The foreign keys of a model *)

(** A field of a model as [Model.get_fk_need_alias_fields] looks at it:
    its name and, when it is a [peewee.ForeignKeyField], the model it
    points to and whether it may be null. Model classes are told apart by
    a number. *)
Record ModelField : Type := mkField {
  field_name : string;
  foreign_key : option (nat * bool)
}.

(** A dict keyed by model class: [k in d], [d[k]] and [d[k] = v]. *)
Fixpoint dict_get {V : Type} (d : list (nat * V)) (k : nat) : option V :=
  match d with
  | [] => None
  | (k', v) :: rest => if Nat.eqb k' k then Some v else dict_get rest k
  end.

Fixpoint dict_set {V : Type} (d : list (nat * V)) (k : nat) (v : V) : list (nat * V) :=
  match d with
  | [] => [(k, v)]
  | (k', v') :: rest =>
      if Nat.eqb k' k then (k, v) :: rest else (k', v') :: dict_set rest k v
  end.

(** The [for f in fields] loop of [get_fk_need_alias_fields], with the
    dict [fw] and the list [need_alias] it builds. *)
Fixpoint need_alias_loop (cls : nat) (fields : list ModelField)
  (fw : list (nat * string)) (need_alias : list string) : list string :=
  match fields with
  | [] => need_alias
  | f :: rest =>
      match foreign_key f with
      | Some (rel_model, _) =>
          match dict_get fw rel_model with
          | Some first =>
              need_alias_loop cls rest fw (need_alias ++ [field_name f] ++ [first])
          | None =>
              if Nat.eqb rel_model cls then
                need_alias_loop cls rest fw (need_alias ++ [field_name f])
              else
                need_alias_loop cls rest (dict_set fw rel_model (field_name f)) need_alias
          end
      | None => need_alias_loop cls rest fw need_alias
      end
  end.

(** [cls.get_fk_need_alias_fields()], [fields] being [cls._meta.sorted_fields]. *)
Definition get_fk_need_alias_fields (cls : nat) (fields : list ModelField) : list string :=
  need_alias_loop cls fields [] [].

(** The name of the first foreign key to [rel_model] among [fields]. *)
Fixpoint first_fk (rel_model : nat) (fields : list ModelField) : option string :=
  match fields with
  | [] => None
  | f :: rest =>
      match foreign_key f with
      | Some (r, _) => if Nat.eqb r rel_model then Some (field_name f)
                       else first_fk rel_model rest
      | None => first_fk rel_model rest
      end
  end.

(** What the field [f] adds to [need_alias] when the fields [done] came
    before it. *)
Definition alias_names (cls : nat) (done : list ModelField) (f : ModelField) : list string :=
  match foreign_key f with
  | Some (rel_model, _) =>
      if Nat.eqb rel_model cls then [field_name f]
      else match first_fk rel_model done with
           | Some first => [field_name f; first]
           | None => []
           end
  | None => []
  end.

(** The names [need_alias] gathers, field by field. *)
Fixpoint alias_names_from (cls : nat) (done todo : list ModelField) : list string :=
  match todo with
  | [] => []
  | f :: rest => alias_names cls done f ++ alias_names_from cls (done ++ [f]) rest
  end.

(** ** Resource classes *)

(** What [getattr(cls, name, None)] finds on a class. *)
Inductive ClassAttr : Type :=
| Absent
| FalsyAttr
| SelectQueryAttr
| OtherAttr.

(** What a class statement hands to [BaseResource.__new__]: the three
    lists its body declares, if it does, and the attributes the finished
    class answers to. *)
Record ClassDecl : Type := mkDecl {
  decl_resource_fields : option (list string);
  decl_exclude_for_collection : option (list string);
  decl_exclude_for_version : option (list string);
  class_attr : string -> ClassAttr
}.

(** What [getattr(cls, ...)] finds for the three lists on the class built
    without them, that is on its bases. *)
Record Inherited : Type := mkInherited {
  inh_resource_fields : option (list string);
  inh_exclude_for_collection : option (list string);
  inh_exclude_for_version : option (list string)
}.

(** A class made by [BaseResource]. An exclusion list is absent when
    neither the class nor its bases have one. *)
Record ResourceClass : Type := mkResourceClass {
  resource_fields : list string;
  exclude_for_collection : option (list string);
  exclude_for_version : option (list string);
  collection_fields : list string;
  versioned_fields : list string
}.

Definition AttributeError (name : string) : PyExc :=
  mkExc "AttributeError" [ArgStr name].

(** "Inherit and extend instead of replacing": the value of the class
    attribute after the [if ... is not None] block. *)
Definition inherit_and_extend (declared inherited : option (list string))
  : option (list string) :=
  match declared with
  | Some l => Some (l ++ match inherited with Some i => i | None => [] end)
  | None => inherited
  end.

Definition in_list (name : string) (l : list string) : bool :=
  existsb (String.eqb name) l.

(** [BaseResource.include_field_for_collection(cls, name)]. *)
Definition include_field_for_collection (exclude : list string)
  (attr : string -> ClassAttr) (name : string) : bool :=
  if in_list name exclude then false
  else match attr name with
       | OtherAttr => true
       | _ => false
       end.

(** [BaseResource.__new__]. The exclusion lists are read once per
    resource field, so a missing one only matters when there is a field. *)
Definition BaseResource_new (decl : ClassDecl) (inh : Inherited)
  : PyResult ResourceClass :=
  let rf := inherit_and_extend (decl_resource_fields decl) (inh_resource_fields inh) in
  let efc := inherit_and_extend (decl_exclude_for_collection decl)
                                (inh_exclude_for_collection inh) in
  let efv := inherit_and_extend (decl_exclude_for_version decl)
                                (inh_exclude_for_version inh) in
  match rf with
  | None => Raise (AttributeError "resource_fields")
  | Some [] => Ok (mkResourceClass [] efc efv ["resource"%string] [])
  | Some fields =>
      match efc with
      | None => Raise (AttributeError "exclude_for_collection")
      | Some xc =>
          match efv with
          | None => Raise (AttributeError "exclude_for_version")
          | Some xv =>
              Ok (mkResourceClass fields efc efv
                    (filter (include_field_for_collection xc (class_attr decl)) fields
                     ++ ["resource"%string])
                    (filter (fun n => negb (in_list n xv)) fields))
          end
      end
  end.

(** What a class hands down to the classes that derive from it. *)
Definition hand_down (c : ResourceClass) : Inherited :=
  mkInherited (Some (resource_fields c)) (exclude_for_collection c)
              (exclude_for_version c).

(** The class statement of [ResourceModel]; [db.Model] has none of the
    three lists, and [id] and [status] are a field and a property. *)
Definition ResourceModel_decl : ClassDecl :=
  mkDecl (Some ["id"; "status"]%string) (Some ["status"%string]) (Some [])
         (fun name =>
            if in_list name ["id"; "status"; "deleted_at"; "resource"; "serialized"]%string
            then OtherAttr else Absent).

Definition ResourceModel : PyResult ResourceClass :=
  BaseResource_new ResourceModel_decl (mkInherited None None None).

(** The classes that derive from [root] through class statements, each
    with one resource class among its bases. *)
Inductive derives_from (root : ResourceClass) : ResourceClass -> Prop :=
| derives_self : derives_from root root
| derives_step : forall parent decl child,
    derives_from root parent ->
    BaseResource_new decl (hand_down parent) = Ok child ->
    derives_from root child.

(** What holds of any class that [BaseResource.__new__] has built. *)
Definition respects_exclusions (c : ResourceClass) : Prop :=
  (forall xc n, exclude_for_collection c = Some xc -> In n xc ->
                n <> "resource"%string -> ~ In n (collection_fields c)) /\
  (forall xv n, exclude_for_version c = Some xv -> In n xv ->
                ~ In n (versioned_fields c)).

(** ** [ResourceModel.adapt] *)

(** [s.split(sep)] for a separator of one character. *)
Fixpoint split_on (sep : ascii) (s : string) : list string :=
  match s with
  | EmptyString => [EmptyString]
  | String c rest =>
      if Ascii.eqb c sep then EmptyString :: split_on sep rest
      else match split_on sep rest with
           | part :: parts => String c part :: parts
           | [] => [String c EmptyString]
           end
  end.

(** A value given as an id that is not a model instance: a string, an
    integer, or some other object. *)
Inductive IdValue : Type :=
| IdStr (s : string)
| IdInt (n : Z)
| IdOther (tag : nat).

(** The three queries [adapt] may run, each ended by [.get()]. *)
Inductive QueryKind : Type :=
| PkOnly
| Eager
| Full.

(** What [adapt] uses of the class it is called on and of the database:
    [cls.identifiers], whether the class has an [auth] attribute, the
    query [... .where(getattr(cls, identifier) == id).get()], which gives
    an instance or raises, and [Redirect.follow(cls.__name__, identifier, id)]. *)
Record ResourceCls (Instance : Type) : Type := mkResourceCls {
  identifiers : list string;
  has_auth : bool;
  get : QueryKind -> string -> IdValue -> PyResult Instance;
  follow : string -> IdValue -> list string
}.
Arguments identifiers {Instance} _.
Arguments has_auth {Instance} _.
Arguments get {Instance} _ _ _ _.
Arguments follow {Instance} _ _ _.

(** How a call of [adapt] ends. *)
Inductive AdaptOutcome (Instance : Type) : Type :=
| Adapted (instance : Instance)
| Unchanged (id : IdValue)
| RaisedDoesNotExist (e : PyExc)
| RaisedRedirect (identifier : string) (id : IdValue) (redirect : string)
| RaisedMultipleRedirects (identifier : string) (id : IdValue) (redirects : list string)
| RaisedOther (e : PyExc).
Arguments Adapted {Instance} _.
Arguments Unchanged {Instance} _.
Arguments RaisedDoesNotExist {Instance} _.
Arguments RaisedRedirect {Instance} _ _ _.
Arguments RaisedMultipleRedirects {Instance} _ _ _.
Arguments RaisedOther {Instance} _.

(** What is given to [adapt] as [id]. *)
Inductive AdaptInput (Instance : Type) : Type :=
| GivenModel (instance : Instance)
| GivenId (id : IdValue).
Arguments GivenModel {Instance} _.
Arguments GivenId {Instance} _.

(** The name of the primary key, [cls._meta.model.pk.name]: [Model]
    declares [pk = peewee.AutoField()]. *)
Definition pk_name : string := "pk".

(** [*extra, id = id.split(':')], then [identifier = extra[0]] if [extra]. *)
Definition split_identifier (s : string) : string * string :=
  let parts := split_on ":"%char s in
  (match removelast parts with
   | first :: _ => first
   | [] => "id"%string
   end,
   last parts EmptyString).

(** The [try] block of [adapt] and its [except cls.DoesNotExist] clause. *)
Definition adapt_lookup {Instance : Type} (cls : ResourceCls Instance)
  (identifier : string) (id : IdValue) (level1 : Z) : AdaptOutcome Instance :=
  let found :=
    if (negb (has_auth cls) && negb (level1 =? 1) && negb (String.eqb identifier pk_name))%bool
    then match get cls PkOnly identifier id with
         | Ok i => Adapted i | Raise e => RaisedOther e end
    else if (negb (has_auth cls) && negb (level1 =? 1) && String.eqb identifier pk_name)%bool
    then Unchanged id
    else if level1 =? 1
    then match get cls Eager identifier id with
         | Ok i => Adapted i | Raise e => RaisedOther e end
    else match get cls Full identifier id with
         | Ok i => Adapted i | Raise e => RaisedOther e end
  in
  match found with
  | RaisedOther e =>
      if String.eqb (exc_class e) "DoesNotExist" then
        match follow cls identifier id with
        | [] => RaisedDoesNotExist e
        | [redirect] => RaisedRedirect identifier id redirect
        | redirects => RaisedMultipleRedirects identifier id redirects
        end
      else RaisedOther e
  | other => other
  end.

(** [cls.adapt(id, identifier, level1)]. An [identifier] that is [None]
    or empty is worked out from [id]. *)
Definition adapt {Instance : Type} (cls : ResourceCls Instance)
  (id : AdaptInput Instance) (identifier : option string) (level1 : Z)
  : AdaptOutcome Instance :=
  match id with
  | GivenModel instance => Adapted instance
  | GivenId v =>
      match match identifier with
            | Some i => if String.eqb i "" then None else Some i
            | None => None
            end with
      | Some i => adapt_lookup cls i v level1
      | None =>
          match v with
          | IdStr s =>
              let '(i, key) := split_identifier s in
              if in_list i (identifiers cls ++ ["id"; "pk"]%string)
              then adapt_lookup cls i (IdStr key) level1
              else RaisedDoesNotExist
                     (mkExc "DoesNotExist" [ArgStr ("Invalid identifier " ++ i)])
          | IdInt _ => adapt_lookup cls "pk" v level1
          | IdOther _ => adapt_lookup cls "id" v level1
          end
      end
  end.

(** Whether the character [c] occurs in [s]. *)
Fixpoint has_char (c : ascii) (s : string) : bool :=
  match s with
  | EmptyString => false
  | String c' rest => (Ascii.eqb c' c || has_char c rest)%bool
  end.

(** A sample class over a table of two rows, found by [id] only, with one
    old id that redirects. *)
Definition sample_cls : ResourceCls nat :=
  mkResourceCls ["cia"%string] false
    (fun _ identifier id =>
       match id with
       | IdStr "ban-1" => if String.eqb identifier "id" then Ok 1%nat
                          else Raise (mkExc "DoesNotExist" [])
       | IdStr "ban-2" => if String.eqb identifier "id" then Ok 2%nat
                          else Raise (mkExc "DoesNotExist" [])
       | _ => Raise (mkExc "DoesNotExist" [])
       end)
    (fun identifier id =>
       match id with
       | IdStr "ban-0" => ["ban-1"%string]
       | IdStr "ban-9" => ["ban-1"; "ban-2"]%string
       | _ => []
       end).

(** ** Field coercions *)

(** [str(n)] for an integer: the decimal digits, most significant first,
    after a minus sign when [n] is negative. The loop runs at most once
    per binary digit of the number. *)
Definition digit_char (d : Z) : ascii := ascii_of_nat (48 + Z.to_nat d).

Fixpoint decimal_digits (fuel : nat) (n : Z) : string :=
  match fuel with
  | O => EmptyString
  | S fuel' =>
      if n <? 10 then String (digit_char n) EmptyString
      else (decimal_digits fuel' (n / 10) ++ String (digit_char (n mod 10)) EmptyString)%string
  end.

Definition str_int (n : Z) : string :=
  if n <? 0 then String "-" (decimal_digits (S (Z.to_nat (Z.log2 (- n)))) (- n))
  else decimal_digits (S (Z.to_nat (Z.log2 n))) n.

(** [str(value)] for the values a postcode may be given as. *)
Definition py_str (value : PyArg) : string :=
  match value with
  | ArgStr s => s
  | ArgInt n => str_int n
  | ArgNone => "None"
  end.

(** [c.isdigit()] on code points below 256: the digits 0-9 and the
    superscripts two, three and one (178, 179, 185). *)
Definition isdigit_char (c : ascii) : bool :=
  let n := nat_of_ascii c in
  (((48 <=? n) && (n <=? 57)) || (n =? 178) || (n =? 179) || (n =? 185))%nat%bool.

Fixpoint all_digits (s : string) : bool :=
  match s with
  | EmptyString => true
  | String c rest => (isdigit_char c && all_digits rest)%bool
  end.

(** [s.isdigit()]: false on the empty string. *)
Definition py_isdigit (s : string) : bool :=
  match s with
  | EmptyString => false
  | _ => all_digits s
  end.

Definition double_quote : string := String (ascii_of_nat 34) EmptyString.

(** [PostCodeField.coerce(value)]. *)
Definition PostCodeField_coerce (value : PyArg) : PyResult string :=
  let value := py_str value in
  if (negb (String.length value =? 5)%nat || negb (py_isdigit value))%bool
  then Raise (ValueError ("Invalid postcode " ++ double_quote ++ value ++ double_quote))
  else Ok value.

(** The values an [ArrayField] may be given. *)
#[warnings="-register-all"]
Inductive PyValue : Type :=
| PNone
| PBool (b : bool)
| PInt (n : Z)
| PStr (s : string)
| PList (items : list PyValue)
| PTuple (items : list PyValue).

(** Truth value testing. *)
Definition truthy (v : PyValue) : bool :=
  match v with
  | PNone => false
  | PBool b => b
  | PInt n => negb (n =? 0)
  | PStr s => negb (String.eqb s "")
  | PList items | PTuple items => match items with [] => false | _ => true end
  end.

(** [isinstance(value, (list, tuple))]. *)
Definition is_list_or_tuple (v : PyValue) : bool :=
  match v with
  | PList _ | PTuple _ => true
  | _ => false
  end.

(** [ArrayField.coerce(value)]. *)
Definition ArrayField_coerce (value : PyValue) : PyValue :=
  if (truthy value && negb (is_list_or_tuple value))%bool then PList [value] else value.

(** * Properties *)

(** ** The model at work *)

Example range_by_3_to_7 : py_range 0 7 3 = Ok [0; 3; 6].
Proof. reflexivity. Qed.

Example range_negative_step : py_range 0 6 (-3) = Ok [].
Proof. reflexivity. Qed.

Example range_zero_step :
  py_range 0 6 0 = Raise (ValueError "range() arg 3 must not be zero").
Proof. reflexivity. Qed.

Example get_tasks_by_2 :
  _get_tasks [1; 2; 3; 4; 5]%nat 2 = Ok [[1; 2]; [3; 4]; [5]]%nat.
Proof. reflexivity. Qed.

Example get_tasks_from_query_by_2 :
  _get_tasks_from_query (table_query [1; 2; 3; 4; 5]%nat) 2
  = Ok [[1; 2]; [3; 4]; [5]]%nat.
Proof. reflexivity. Qed.

Example batch_of_five :
  batch 2 (mkSchedule (fun i => Nat.modulo i 2) [0; 2; 1]%nat) log_then_check
        (Plain [1; 2; 3; 4; 5]%nat) 2
  = Finished [Merge [1; 2]; BarStep 2; Yield 1; Yield 2;
              Merge [5]; BarStep 1; Yield 5;
              Merge [3; 4]; BarStep 2; Yield 3; Yield 4;
              BarFinish; Terminate]%nat (Ok tt).
Proof. reflexivity. Qed.

Example batch_without_worker :
  batch 0 (sequential 1) echo (Plain [1%nat]) 1
  = Finished [] (Raise (ValueError "Number of processes must be at least 1")).
Proof. reflexivity. Qed.

(** ** Lists *)

Lemma firstn_plus {A} (a b : nat) (l : list A) :
  firstn (a + b) l = firstn a l ++ firstn b (skipn a l).
Proof.
  revert l; induction a as [|a IH]; intros l; simpl; [reflexivity|].
  destruct l as [|x l]; simpl.
  - now rewrite firstn_nil.
  - now rewrite IH.
Qed.

Lemma in_concat_segment {A} (chunk : list A) (chunks : list (list A)) :
  In chunk chunks -> exists pre post, concat chunks = pre ++ chunk ++ post.
Proof.
  induction chunks as [|c cs IH]; simpl; [tauto|].
  intros [->|Hin].
  - exists [], (concat cs). reflexivity.
  - destruct (IH Hin) as (pre & post & E).
    exists (c ++ pre), post. now rewrite E, app_assoc.
Qed.

(** ** The plain chunk source *)

Section ChunkFacts.

Context {Item : Type}.

Lemma get_tasks_loop_zero (it : list Item) : get_tasks_loop 0 it = [].
Proof. now simp get_tasks_loop. Qed.

Lemma get_tasks_loop_concat (size : nat) (it : list Item) :
  (0 < size)%nat -> concat (get_tasks_loop size it) = it.
Proof.
  intros Hs. funelim (get_tasks_loop size it).
  - destruct size as [|n]; [lia|].
    destruct it as [|a it]; [reflexivity | discriminate].
  - simpl. rewrite H by assumption.
    change (x :: xs ++ skipn size it) with ((x :: xs) ++ skipn size it).
    rewrite <- Hx. apply firstn_skipn.
Qed.

End ChunkFacts.

(** ** Arithmetic of the windows *)

Lemma ceil_div_bounds (n c : nat) :
  (0 < c)%nat ->
  (n <= ceil_div n c * c)%nat /\ ((0 < n)%nat -> ((ceil_div n c - 1) * c < n)%nat /\ (0 < ceil_div n c)%nat).
Proof.
  intros Hc. unfold ceil_div.
  pose proof (Nat.div_mod_eq (n + c - 1) c) as E.
  pose proof (Nat.mod_upper_bound (n + c - 1) c ltac:(lia)) as B.
  set (q := ((n + c - 1) / c)%nat) in *.
  set (r := ((n + c - 1) mod c)%nat) in *.
  split; [nia|]. intros Hn.
  assert (0 < q)%nat by (destruct q; [nia | lia]).
  split; [nia | assumption].
Qed.

Lemma ceil_div_zero (c : nat) : (0 < c)%nat -> ceil_div 0 c = O.
Proof. intros Hc. unfold ceil_div. apply Nat.div_small. lia. Qed.

Lemma range_len_ceil (n : nat) (C : Z) :
  0 < C -> range_len 0 (Z.of_nat n) C = ceil_div n (Z.to_nat C).
Proof.
  intros HC. unfold range_len.
  replace (0 <? C) with true by (symmetry; apply Z.ltb_lt; lia).
  destruct n as [|n].
  - simpl. rewrite ceil_div_zero by lia. reflexivity.
  - replace (0 <? Z.of_nat (S n)) with true by (symmetry; apply Z.ltb_lt; lia).
    apply Nat2Z.inj. rewrite Z2Nat.id.
    + unfold ceil_div. rewrite Nat2Z.inj_div, Nat2Z.inj_sub, Nat2Z.inj_add by lia.
      rewrite Z2Nat.id by lia.
      replace (Z.of_nat (S n) + C - Z.of_nat 1) with (Z.of_nat (S n) - 0 - 1 + 1 * C) by lia.
      rewrite Z.div_add by lia. reflexivity.
    + assert (0 <= (Z.of_nat (S n) - 0 - 1) / C) by (apply Z.div_pos; lia). lia.
Qed.

Section QueryFacts.

Context {Item : Type}.

Lemma get_tasks_from_query_windows (q : SelectQuery Item) (C : Z) :
  1 <= C ->
  _get_tasks_from_query q C =
  Ok (map (fun k => limit_offset q C (Z.of_nat k * C))
          (seq 0 (ceil_div (count q) (Z.to_nat C)))).
Proof.
  intros HC. unfold _get_tasks_from_query, py_range.
  replace (C =? 0) with false by (symmetry; apply Z.eqb_neq; lia).
  rewrite range_len_ceil, map_map by lia. reflexivity.
Qed.

Lemma window_nat (rows : list Item) (c k : nat) :
  window rows (Z.of_nat c) (Z.of_nat k * Z.of_nat c) = firstn c (skipn (k * c) rows).
Proof.
  unfold window. rewrite <- Nat2Z.inj_mul, !Nat2Z.id. reflexivity.
Qed.

Lemma concat_windows (rows : list Item) (c n : nat) :
  concat (map (fun k => firstn c (skipn (k * c) rows)) (seq 0 n)) = firstn (n * c) rows.
Proof.
  induction n as [|n IH]; [reflexivity|].
  rewrite seq_S, map_app, concat_app, IH. simpl.
  rewrite app_nil_r, (Nat.add_comm c). symmetry. apply firstn_plus.
Qed.

Lemma window_length (rows : list Item) (c k : nat) :
  length (firstn c (skipn (k * c) rows)) = Nat.min c (length rows - k * c).
Proof. now rewrite length_firstn, length_skipn. Qed.

End QueryFacts.

(** ** The orchestrator's loop *)

Section BatchFacts.

Context {Item Result Entry : Type}.

Local Abbreviation Batch := (ResultBatch Result Entry).
Local Abbreviation Orch := (Orchestrator Entry).

Lemma batch_step_events (b : Batch) : batch_step b = (batch_events b, Ok tt).
Proof. destruct b as [results reports]. reflexivity. Qed.

Lemma for_in_batch_step (stream : list (PyResult Batch)) :
  for_in stream batch_step =
  (concat (map batch_events (received stream)),
   match first_failure stream with None => Ok tt | Some e => Raise e end).
Proof.
  induction stream as [|[b|e] stream IH]; simpl; try reflexivity.
  unfold bind. rewrite batch_step_events, IH. reflexivity.
Qed.

Lemma batch_try_completes (stream : list (PyResult Batch)) :
  first_failure stream = None ->
  batch_try stream = (concat (map batch_events (received stream)) ++ [BarFinish], Ok tt).
Proof.
  intros Hnone. unfold batch_try, try_except, bind.
  rewrite for_in_batch_step, Hnone. reflexivity.
Qed.

Lemma batch_try_aborts (stream : list (PyResult Batch)) (e : PyExc) :
  first_failure stream = Some e ->
  batch_try stream =
  (concat (map batch_events (received stream)) ++ fst (batch_except e),
   snd (batch_except (Result:=Result) (Entry:=Entry) e)).
Proof.
  intros Hsome. unfold batch_try, try_except, bind.
  rewrite for_in_batch_step, Hsome.
  destruct (batch_except e) as [tr r]. reflexivity.
Qed.

Lemma batch_except_cases (e : PyExc) :
  match exc_args e with
  | ArgStr msg :: _ =>
      batch_except (Result:=Result) (Entry:=Entry) e
      = ([Print (newline ++ msg)%string; Terminate], Ok tt)
  | _ => exists e', batch_except (Result:=Result) (Entry:=Entry) e = ([], Raise e')
  end.
Proof.
  unfold batch_except, args0, str_add, bind.
  destruct (exc_args e) as [|[s|n|] rest]; simpl; eauto.
Qed.

(** The state after the events of a run of batches. *)
Lemma run_events_batches (bs : list Batch) (st : Orch) :
  run_events st (concat (map batch_events bs)) =
  mkOrch (mkReporter (_reports (main_reporter st) ++ merged_reports bs))
         (bar_done st + results_count bs) (bar_finished st) (printed st) (terminated st).
Proof.
  revert st. induction bs as [|[results reports] bs IH]; intros st.
  - destruct st as [[r] d f p t]. unfold merged_reports, results_count. simpl.
    now rewrite app_nil_r, Nat.add_0_r.
  - unfold run_events in *. simpl.
    rewrite fold_left_app.
    assert (Hy : forall (xs : list Result) (s : Orch),
               fold_left apply_event (map Yield xs) s = s)
      by (induction xs; intros; simpl; auto).
    rewrite Hy, IH. unfold merged_reports, results_count. simpl.
    now rewrite <- app_assoc, Nat.add_assoc.
Qed.

End BatchFacts.

(** ** The pool *)

Section PoolFacts.

Context {Item Result Entry : Type}.

Local Abbreviation Batch := (ResultBatch Result Entry).
Local Abbreviation Func := (UserFunc Item Result Entry).

Lemma in_arrival_order_seq {A} (pre outs : list A) :
  in_arrival_order (pre ++ outs) (seq (length pre) (length outs)) = outs.
Proof.
  revert pre. induction outs as [|o outs IH]; intros pre; [reflexivity|].
  unfold in_arrival_order in *. simpl.
  rewrite nth_error_app2, Nat.sub_diag by lia. simpl. f_equal.
  specialize (IH (pre ++ [o])).
  rewrite <- app_assoc, length_app, Nat.add_comm in IH. exact IH.
Qed.

Lemma in_arrival_order_perm {A} (outs : list A) (arrival : list nat) :
  Permutation arrival (seq 0 (length outs)) ->
  Permutation (in_arrival_order outs arrival) outs.
Proof.
  intros Hp. unfold in_arrival_order.
  rewrite (Permutation_flat_map _ Hp).
  pose proof (in_arrival_order_seq [] outs) as E. simpl in E.
  unfold in_arrival_order in E. rewrite E. reflexivity.
Qed.

Lemma run_tasks_length (func : Func) assign st i chunks :
  length (run_tasks func assign st i chunks) = length chunks.
Proof.
  revert st i. induction chunks as [|c cs IH]; intros st i; simpl; [reflexivity|].
  destruct (collect_report func c (st (assign i))) as [out r]. simpl. now rewrite IH.
Qed.

(** With every task given to the same worker, the pool's outcomes are
    those of that worker's loop. *)
Lemma run_tasks_single_worker (func : Func) (w : nat) st i chunks :
  run_tasks func (fun _ => w) st i chunks = fst (worker func (st w) chunks).
Proof.
  revert st i. induction chunks as [|c cs IH]; intros st i; simpl; [reflexivity|].
  destruct (collect_report func c (st w)) as [out r].
  rewrite IH. unfold set_reporter. rewrite Nat.eqb_refl.
  destruct (worker func r cs) as [outs r2]. reflexivity.
Qed.

(** Every chunk is handed to [collect_report], hence to the user function,
    exactly once, whichever worker takes it. *)
Lemma run_tasks_calls (func : Func) assign st i chunks :
  Forall2 (fun chunk out => exists r, out = fst (collect_report func chunk r))
          chunks (run_tasks func assign st i chunks).
Proof.
  revert st i. induction chunks as [|c cs IH]; intros st i; simpl; [constructor|].
  destruct (collect_report func c (st (assign i))) as [out r] eqn:E.
  constructor; [|apply IH].
  exists (st (assign i)). now rewrite E.
Qed.

Lemma first_failure_none {A} (stream : list (PyResult A)) :
  first_failure stream = None <-> Forall (fun o => is_ok o = true) stream.
Proof.
  induction stream as [|[a|e] stream IH]; simpl.
  - split; auto.
  - rewrite IH. split; [intros; constructor; auto | now inversion 1].
  - split; [discriminate | inversion 1; discriminate].
Qed.






End PoolFacts.

Section RunFacts.

Context {Item Result Entry : Type}.

Local Abbreviation Batch := (ResultBatch Result Entry).
Local Abbreviation Func := (UserFunc Item Result Entry).

Lemma in_arrival_order_in {A} (outs : list A) (arrival : list nat) (o : A) :
  In o (in_arrival_order outs arrival) -> In o outs.
Proof.
  unfold in_arrival_order. rewrite in_flat_map. intros (i & _ & Hi).
  destruct (nth_error outs i) as [o'|] eqn:E; simpl in Hi; [|tauto].
  destruct Hi as [->|[]]. eapply nth_error_In; eauto.
Qed.

Lemma run_tasks_never_raises (func : Func) assign st i chunks :
  never_raises func ->
  Forall (fun o => is_ok o = true) (run_tasks func assign st i chunks).
Proof.
  intros Hn. revert st i. induction chunks as [|c cs IH]; intros st i; simpl; [constructor|].
  destruct (collect_report func c (st (assign i))) as [out r] eqn:E.
  constructor; [|apply IH].
  unfold collect_report in E. specialize (Hn c (st (assign i))).
  destruct (func c (st (assign i))) as [[results|e] r1]; inversion E; subst; auto.
Qed.

Lemma batch_unfold (W : nat) sched (func : Func) iterable C stream :
  W <> O ->
  imap_unordered sched func iterable C = Ok stream ->
  batch W sched func iterable C =
  Finished (fst (batch_try stream) ++ [Terminate]) (snd (batch_try stream)).
Proof.
  intros HW Hs. unfold batch. rewrite Hs.
  destruct W; [congruence|]. simpl.
  destruct (batch_try stream) as [tr r]. reflexivity.
Qed.

Lemma imap_unordered_unfold sched (func : Func) iterable C chunks :
  task_batches iterable C = Ok chunks ->
  imap_unordered sched func iterable C =
  Ok (in_arrival_order (run_tasks func (assign sched) (fun _ => fresh_reporter) 0 chunks)
                       (arrival sched)).
Proof. intros H. unfold imap_unordered. now rewrite H. Qed.

(** A user function that never raises lets [batch] run to [bar.finish()]. *)
Lemma batch_never_raises (W : nat) sched (func : Func) iterable C chunks :
  W <> O -> never_raises func ->
  task_batches iterable C = Ok chunks ->
  exists tr, batch W sched func iterable C = Finished tr (Ok tt) /\ In BarFinish tr.
Proof.
  intros HW Hn Hc.
  pose proof (@imap_unordered_unfold sched func iterable C chunks Hc) as Hs.
  rewrite (@batch_unfold W sched func iterable C _ HW Hs).
  set (stream := in_arrival_order _ _) in *.
  assert (Hok : first_failure stream = None).
  { apply first_failure_none, Forall_forall. intros o Ho.
    apply in_arrival_order_in in Ho.
    pose proof (@run_tasks_never_raises func (assign sched) (fun _ => fresh_reporter) O chunks Hn) as Hall.
    rewrite Forall_forall in Hall. auto. }
  rewrite (batch_try_completes _ Hok). simpl.
  eexists; split; [reflexivity|].
  rewrite !in_app_iff. left; right; left. reflexivity.
Qed.

Lemma table_query_consistent (rows : list Item) : consistent (table_query rows) rows.
Proof. split; [reflexivity | intros; reflexivity]. Qed.

End RunFacts.

Lemma ceil_div_step (n c : nat) :
  (0 < c)%nat -> (0 < n)%nat -> ceil_div n c = S (ceil_div (n - c) c).
Proof.
  intros Hc Hn. unfold ceil_div.
  destruct (Nat.le_gt_cases c n) as [Hle|Hlt].
  - replace (n + c - 1)%nat with ((n - c + c - 1) + 1 * c)%nat by lia.
    rewrite Nat.div_add by lia. lia.
  - replace (n - c)%nat with O by lia. simpl.
    rewrite (Nat.div_small (c - 1) c) by lia.
    replace (n + c - 1)%nat with ((n - 1) + 1 * c)%nat by lia.
    rewrite Nat.div_add by lia. rewrite Nat.div_small by lia. reflexivity.
Qed.

(** The chunks of [Pool._get_tasks] are the successive windows of the
    sequence. *)
Lemma get_tasks_loop_windows {Item : Type} (c : nat) (it : list Item) :
  (0 < c)%nat ->
  get_tasks_loop c it =
  map (fun k => firstn c (skipn (k * c) it)) (seq 0 (ceil_div (length it) c)).
Proof.
  intros Hc. funelim (get_tasks_loop c it).
  - destruct size as [|n]; [lia|].
    destruct it as [|a it]; [|discriminate].
    simpl length. rewrite ceil_div_zero by lia. reflexivity.
  - assert (Hpos : (0 < length it)%nat).
    { destruct it; [destruct size; discriminate | simpl; lia]. }
    rewrite (ceil_div_step Hc Hpos). simpl seq. rewrite <- seq_shift, map_cons, map_map.
    simpl. rewrite <- Hx. f_equal.
    rewrite H by assumption. rewrite length_skipn.
    apply map_ext. intros k. rewrite skipn_skipn. f_equal. f_equal. lia.
Qed.

(** * The chunk source *)

(** With a chunk size of at least 1 that [islice] takes, the chunk source
    succeeds; its chunks, put end to end, are the input, and there are
    [ceil(N/C)] of them. *)
Lemma task_batches_succeeds {Item : Type} (iterable : Iterable Item)
  (items : list Item) (C : Z) :
  1 <= C ->
  chunksize_accepted iterable C ->
  source_of iterable items ->
  exists chunks,
    task_batches iterable C = Ok chunks /\
    concat chunks = items /\
    length chunks = ceil_div (length items) (Z.to_nat C).
Proof.
  intros HC Hacc Hsrc.
  destruct iterable as [l|q]; simpl in *.
  - subst l. unfold _get_tasks.
    replace (C <? 0) with false by (symmetry; apply Z.ltb_ge; lia).
    replace (sys_maxsize <? C) with false by (symmetry; apply Z.ltb_ge; lia).
    eexists; split; [reflexivity|]. split.
    + apply get_tasks_loop_concat. lia.
    + rewrite get_tasks_loop_windows by lia. now rewrite length_map, length_seq.
  - destruct Hsrc as [Hcount Hwin].
    rewrite get_tasks_from_query_windows by assumption.
    eexists; split; [reflexivity|]. split.
    + set (c := Z.to_nat C). assert (EC : C = Z.of_nat c) by (unfold c; lia).
      rewrite (map_ext_in _ (fun k => firstn c (skipn (k * c) items))).
      * rewrite concat_windows, Hcount. apply firstn_all2.
        apply ceil_div_bounds. unfold c; lia.
      * intros k _. rewrite Hwin by lia. rewrite EC. apply window_nat.
    + now rewrite length_map, length_seq, Hcount.
Qed.


Lemma last_window_size (len c n : nat) :
  (0 < c)%nat -> ((n - 1) * c < len)%nat -> (len <= n * c)%nat ->
  (len - (n - 1) * c)%nat = if (len mod c =? 0)%nat then c else (len mod c)%nat.
Proof.
  intros Hc Hlo Hhi.
  pose proof (Nat.div_mod_eq len c) as E.
  pose proof (Nat.mod_upper_bound len c ltac:(lia)) as B.
  set (d := (len / c)%nat) in *. set (r := (len mod c)%nat) in *.
  destruct n as [|m]; [simpl in *; lia|].
  replace (S m - 1)%nat with m in * by lia.
  destruct (Nat.eqb_spec r 0) as [Hr|Hr].
  - assert (m < d)%nat by nia. assert (d <= S m)%nat by nia.
    assert (d = S m) by lia. subst d. nia.
  - assert (m <= d)%nat by nia. assert (d < S m)%nat by nia.
    assert (d = m) by lia. subst d. nia.
Qed.

(** C4, as the code has it. For every paginated source reporting [count]
    items and every chunk size [C >= 1], the chunk source yields exactly
    [ceil(count/C)] chunks, the chunk of index [k] being the window
    fetched at offset [k*C] with limit [C]. When the source is consistent
    with a table of [count] rows, every chunk but the last holds exactly
    [C] items and the last holds [count mod C] items, or [C] when [count]
    is a multiple of [C]. *)
Theorem paginated_chunk_count_and_sizes :
  forall (Item : Type) (q : SelectQuery Item) (rows : list Item) (C : Z),
    1 <= C ->
    exists chunks,
      _get_tasks_from_query q C = Ok chunks /\
      length chunks = ceil_div (count q) (Z.to_nat C) /\
      (forall k, (k < length chunks)%nat ->
         nth_error chunks k = Some (limit_offset q C (Z.of_nat k * C))) /\
      (consistent q rows ->
       forall k chunk, nth_error chunks k = Some chunk ->
         length chunk =
         if (S k <? length chunks)%nat then Z.to_nat C
         else if (count q mod Z.to_nat C =? 0)%nat then Z.to_nat C
              else (count q mod Z.to_nat C)%nat).
Proof.
  intros Item q rows C HC.
  rewrite get_tasks_from_query_windows by assumption.
  set (c := Z.to_nat C). assert (EC : C = Z.of_nat c) by (unfold c; lia).
  assert (Hc : (0 < c)%nat) by (unfold c; lia).
  set (n := ceil_div (count q) c).
  eexists; split; [reflexivity|].
  assert (Hnth : forall k, (k < n)%nat ->
            nth_error (map (fun k => limit_offset q C (Z.of_nat k * C)) (seq 0 n)) k
            = Some (limit_offset q C (Z.of_nat k * C))).
  { intros k Hk. rewrite nth_error_map, nth_error_seq.
    apply Nat.ltb_lt in Hk. rewrite Hk. reflexivity. }
  rewrite length_map, length_seq.
  split; [reflexivity|]. split; [exact Hnth|].
  intros [Hcount Hwin] k chunk Hk.
  assert (Hlt : (k < n)%nat).
  { assert (Hs : nth_error (map (fun k => limit_offset q C (Z.of_nat k * C)) (seq 0 n)) k <> None)
      by congruence.
    apply nth_error_Some in Hs. now rewrite length_map, length_seq in Hs. }
  rewrite Hnth in Hk by assumption. injection Hk as <-.
  rewrite Hwin by lia. rewrite EC, window_nat, window_length.
  destruct (@ceil_div_bounds (count q) c Hc) as [Hhi Hlo]. fold n in Hhi, Hlo.
  assert (Hpos : (0 < count q)%nat).
  { destruct (Nat.eq_dec (count q) 0) as [E0|]; [|lia].
    unfold n in Hlt. rewrite E0, ceil_div_zero in Hlt by lia. lia. }
  destruct (Hlo Hpos) as [Hlo' _]. rewrite <- Hcount.
  destruct (Nat.ltb_spec (S k) n) as [Hin|Hlast].
  - apply Nat.min_l. nia.
  - assert (k = (n - 1)%nat) by lia. subst k.
    rewrite <- (@last_window_size (count q) c n Hc Hlo' Hhi). apply Nat.min_r. nia.
Qed.

Lemma paginated_chunk_count_and_sizes_witness :
  exists chunks,
    _get_tasks_from_query (table_query [1; 2; 3; 4; 5; 6; 7]%nat) 3 = Ok chunks /\
    length chunks = ceil_div 7 3 /\
    (forall k, (k < length chunks)%nat ->
       nth_error chunks k =
       Some (limit_offset (table_query [1; 2; 3; 4; 5; 6; 7]%nat) 3 (Z.of_nat k * 3))) /\
    (forall k chunk, nth_error chunks k = Some chunk ->
       length chunk =
       if (S k <? length chunks)%nat then 3%nat
       else if (7 mod 3 =? 0)%nat then 3%nat else (7 mod 3)%nat).
Proof.
  destruct (@paginated_chunk_count_and_sizes nat
              (table_query [1; 2; 3; 4; 5; 6; 7]%nat) [1; 2; 3; 4; 5; 6; 7]%nat 3
              ltac:(lia)) as (chunks & Hok & Hlen & Hnth & Hsize).
  exists chunks. split; [exact Hok|]. split; [exact Hlen|]. split; [exact Hnth|].
  apply Hsize. split; [reflexivity | intros; reflexivity].
Defined.

(** C4 fails as stated: a source that reports 4 rows and holds 3, read by
    chunks of 2, yields the two chunks the count calls for, but the last
    holds one item where the claim promises 2, 4 being a multiple of 2. *)
Lemma unchecked_count_breaks_chunk_sizes :
  count (stale_query 4 [7; 8; 9]%nat) = 4%nat /\
  _get_tasks_from_query (stale_query 4 [7; 8; 9]%nat) 2 = Ok [[7; 8]; [9]]%nat /\
  (4 mod Z.to_nat 2 =? 0)%nat = true /\
  length (last [[7; 8]; [9]]%nat []) <> Z.to_nat 2.
Proof. repeat split; try reflexivity. simpl. lia. Qed.

Lemma in_arrival_order_nil {A} (arrival : list nat) :
  in_arrival_order (@nil A) arrival = [].
Proof.
  unfold in_arrival_order. induction arrival as [|i arrival IH]; [reflexivity|].
  simpl. destruct i; simpl; exact IH.
Qed.

Lemma batch_no_chunk {Item Result Entry : Type} (W : nat) sched
  (func : UserFunc Item Result Entry) iterable C :
  W <> O -> task_batches iterable C = Ok [] ->
  batch W sched func iterable C = Finished [BarFinish; Terminate] (Ok tt).
Proof.
  intros HW Hc.
  rewrite (@batch_unfold _ _ _ W sched func iterable C [] HW).
  - reflexivity.
  - rewrite (@imap_unordered_unfold _ _ _ sched func iterable C [] Hc).
    simpl. now rewrite in_arrival_order_nil.
Qed.

Lemma batch_feed_failed {Item Result Entry : Type} (W : nat) sched
  (func : UserFunc Item Result Entry) iterable C e :
  W <> O -> task_batches iterable C = Raise e ->
  batch W sched func iterable C = TaskFeedFailed e.
Proof.
  intros HW Hc. unfold batch, imap_unordered. rewrite Hc.
  destruct W; [congruence | reflexivity].
Qed.

(** C5, as the code has it. With a chunk size of 0 or less no chunk ever
    reaches a worker, but an error arises in two of the four cases only.
    A plain sequence with chunk size 0 and a paginated source with a
    negative chunk size give an empty sequence of chunks, and [batch]
    runs to its normal end with no result and no error. A plain sequence
    with a negative chunk size and a paginated source with chunk size 0
    make the task generator raise a ValueError when the pool asks for the
    first task. *)
Theorem nonpositive_chunksize_feeds_no_chunk :
  forall (Item Result Entry : Type) (iterable : Iterable Item) (C : Z) (W : nat)
         (sched : Schedule) (func : UserFunc Item Result Entry),
    C <= 0 -> W <> O ->
    (task_batches iterable C = Ok [] /\
     batch W sched func iterable C = Finished [BarFinish; Terminate] (Ok tt) /\
     ((exists l, iterable = Plain l) /\ C = 0 \/
      (exists q, iterable = Query q) /\ C < 0))
    \/
    (exists msg,
        task_batches iterable C = Raise (ValueError msg) /\
        batch W sched func iterable C = TaskFeedFailed (ValueError msg) /\
        ((exists l, iterable = Plain l) /\ C < 0 \/
         (exists q, iterable = Query q) /\ C = 0)).
Proof.
  intros Item Result Entry iterable C W sched func HC HW.
  assert (Hcase : C = 0 \/ C < 0) by lia.
  destruct iterable as [l|q]; destruct Hcase as [H0|Hneg].
  - left. assert (Hc : task_batches (Plain l) C = Ok []).
    { subst C. simpl. unfold _get_tasks, sys_maxsize. simpl.
      now rewrite get_tasks_loop_zero. }
    repeat split; auto using batch_no_chunk. left; eauto.
  - right. eexists.
    assert (Hc : task_batches (Plain l) C = Raise (ValueError
      "Stop argument for islice() must be None or an integer: 0 <= x <= sys.maxsize.")).
    { simpl. unfold _get_tasks.
      replace (C <? 0) with true by (symmetry; apply Z.ltb_lt; lia). reflexivity. }
    repeat split; [exact Hc | now apply batch_feed_failed | left; eauto].
  - right. eexists.
    assert (Hc : task_batches (Query q) C = Raise (ValueError "range() arg 3 must not be zero")).
    { subst C. reflexivity. }
    repeat split; [exact Hc | now apply batch_feed_failed | right; eauto].
  - left. assert (Hc : task_batches (Query q) C = Ok []).
    { simpl. unfold _get_tasks_from_query, py_range, range_len.
      replace (C =? 0) with false by (symmetry; apply Z.eqb_neq; lia).
      replace (0 <? C) with false by (symmetry; apply Z.ltb_ge; lia).
      replace (Z.of_nat (count q) <? 0) with false by (symmetry; apply Z.ltb_ge; lia).
      reflexivity. }
    repeat split; auto using batch_no_chunk. right; eauto.
Qed.

Lemma nonpositive_chunksize_feeds_no_chunk_witness :
  (task_batches (Query (table_query [1; 2; 3]%nat)) (-1) = Ok [] /\
   batch 1 (sequential 0) echo
         (Query (table_query [1; 2; 3]%nat)) (-1)
   = Finished [BarFinish; Terminate] (Ok tt) /\
   ((exists l, Query (table_query [1; 2; 3]%nat) = Plain l) /\ -1 = 0 \/
    (exists q, Query (table_query [1; 2; 3]%nat) = Query q) /\ -1 < 0))
  \/
  (exists msg,
      task_batches (Query (table_query [1; 2; 3]%nat)) (-1) = Raise (ValueError msg) /\
      batch 1 (sequential 0) echo
            (Query (table_query [1; 2; 3]%nat)) (-1)
      = TaskFeedFailed (ValueError msg) /\
      ((exists l, Query (table_query [1; 2; 3]%nat) = Plain l) /\ -1 < 0 \/
       (exists q, Query (table_query [1; 2; 3]%nat) = Query q) /\ -1 = 0)).
Proof.
  apply (@nonpositive_chunksize_feeds_no_chunk nat nat nat
           (Query (table_query [1; 2; 3]%nat)) (-1) 1%nat (sequential 0)
           echo); [lia | discriminate].
Defined.

(** C5 fails as stated: a negative chunk size over a paginated source of
    three rows, and a chunk size of 0 over a plain sequence of three
    items, both end [batch] normally, with no result and no error. *)
Lemma nonpositive_chunksize_ends_without_error :
  batch 1 (sequential 0) echo
        (Query (table_query [1; 2; 3]%nat)) (-1)
  = Finished [BarFinish; Terminate] (Ok tt) /\
  batch 1 (sequential 0) echo
        (Plain [1; 2; 3]%nat) 0
  = Finished [BarFinish; Terminate] (Ok tt).
Proof. split; reflexivity. Qed.

(** C9, as the code has it. A paginated source whose [count()] answers
    [reported] while its table holds [rows] raises nothing on that
    account. For a chunk size [C >= 1] the chunk source still yields
    [ceil(reported/C)] windows; put end to end they are the first
    [ceil(reported/C) * C] rows of the table: windows past the end of the
    table come out smaller or empty, rows past the last window are never
    fetched. With a user function that does not raise, [batch] runs to
    [bar.finish()] and ends normally. *)
Theorem stale_count_is_absorbed :
  forall (Item Result Entry : Type) (rows : list Item) (reported : nat) (C : Z)
         (W : nat) (sched : Schedule) (func : UserFunc Item Result Entry),
    1 <= C -> W <> O -> never_raises func ->
    exists chunks tr,
      _get_tasks_from_query (stale_query reported rows) C = Ok chunks /\
      length chunks = ceil_div reported (Z.to_nat C) /\
      concat chunks = firstn (ceil_div reported (Z.to_nat C) * Z.to_nat C) rows /\
      batch W sched func (Query (stale_query reported rows)) C = Finished tr (Ok tt) /\
      In BarFinish tr.
Proof.
  intros Item Result Entry rows reported C W sched func HC HW Hn.
  pose proof (@get_tasks_from_query_windows Item (stale_query reported rows) C HC) as Hq.
  destruct (@batch_never_raises _ _ _ W sched func (Query (stale_query reported rows)) C _
              HW Hn Hq) as (tr & Hb & Hfin).
  eexists; exists tr. split; [exact Hq|].
  split; [now rewrite length_map, length_seq|].
  split; [|split; assumption].
  simpl. set (c := Z.to_nat C). assert (EC : C = Z.of_nat c) by (unfold c; lia).
  rewrite (map_ext _ (fun k => firstn c (skipn (k * c) rows))).
  - apply concat_windows.
  - intros k. rewrite EC. apply window_nat.
Qed.

Lemma stale_count_is_absorbed_witness :
  exists chunks tr,
    _get_tasks_from_query (stale_query 4 [7; 8; 9]%nat) 2 = Ok chunks /\
    length chunks = ceil_div 4 (Z.to_nat 2) /\
    concat chunks = firstn (ceil_div 4 (Z.to_nat 2) * Z.to_nat 2) [7; 8; 9]%nat /\
    batch 1 (sequential 2) echo
          (Query (stale_query 4 [7; 8; 9]%nat)) 2 = Finished tr (Ok tt) /\
    In BarFinish tr.
Proof.
  apply (@stale_count_is_absorbed nat nat nat [7; 8; 9]%nat 4%nat 2 1%nat (sequential 2)
           echo); [lia | discriminate | intros chunk r; reflexivity].
Defined.

(** C9 fails as stated: a source that reports 4 rows and holds 3, or
    reports 1 row and holds 3, is read without any error; the first
    yields a smaller last chunk, the second leaves a row out, and
    [batch] ends normally both times. *)
Lemma stale_count_raises_nothing :
  count (stale_query 4 [7; 8; 9]%nat) <> length [7; 8; 9]%nat /\
  task_batches (Query (stale_query 4 [7; 8; 9]%nat)) 2 = Ok [[7; 8]; [9]]%nat /\
  batch 1 (sequential 2) echo
        (Query (stale_query 4 [7; 8; 9]%nat)) 2
  = Finished [Merge []; BarStep 2; Yield 7; Yield 8;
              Merge []; BarStep 1; Yield 9; BarFinish; Terminate]%nat (Ok tt) /\
  count (stale_query 1 [7; 8; 9]%nat) <> length [7; 8; 9]%nat /\
  batch 1 (sequential 1) echo
        (Query (stale_query 1 [7; 8; 9]%nat)) 2
  = Finished [Merge []; BarStep 2; Yield 7; Yield 8; BarFinish; Terminate]%nat (Ok tt).
Proof. repeat split; try reflexivity; simpl; lia. Qed.

(** * The worker execution wrapper *)

(** When the user function returns, the wrapper hands back its results
    with the Reporter's buffer and leaves the Reporter empty. *)
Lemma collect_report_on_return {Item Result Entry : Type}
  (func : UserFunc Item Result Entry) chunk reporter results reporter1 :
  func chunk reporter = (Ok results, reporter1) ->
  collect_report func chunk reporter = (Ok (results, _reports reporter1), fresh_reporter).
Proof. intros E. unfold collect_report. now rewrite E. Qed.

(** C2, as the code has it. If the user function raises, the wrapper
    raises that very exception, unwrapped, and the Reporter is not
    cleared: the next chunk run by the same worker finds the Reporter
    exactly as the failing call left it. *)
Theorem collect_report_on_raise :
  forall (Item Result Entry : Type) (func : UserFunc Item Result Entry)
         (chunk : list Item) (reporter reporter1 : Reporter Entry) (e : PyExc)
         (rest : list (list Item)),
    func chunk reporter = (Raise e, reporter1) ->
    collect_report func chunk reporter = (Raise e, reporter1) /\
    reporter_at_start func reporter (chunk :: rest) =
      reporter :: reporter_at_start func reporter1 rest /\
    fst (worker func reporter (chunk :: rest)) =
      Raise e :: fst (worker func reporter1 rest).
Proof.
  intros Item Result Entry func chunk reporter reporter1 e rest E.
  assert (Hc : collect_report func chunk reporter = (Raise e, reporter1))
    by (unfold collect_report; now rewrite E).
  split; [exact Hc|]. simpl. rewrite Hc. simpl.
  split; [reflexivity|].
  destruct (worker func reporter1 rest) as [outs r2]. reflexivity.
Qed.

Lemma collect_report_on_raise_witness :
  collect_report log_then_check [0%nat] fresh_reporter = (Raise boom, mkReporter [0%nat]) /\
  reporter_at_start log_then_check fresh_reporter ([0%nat] :: [[5%nat]]) =
    fresh_reporter :: reporter_at_start log_then_check (mkReporter [0%nat]) [[5%nat]] /\
  fst (worker log_then_check fresh_reporter ([0%nat] :: [[5%nat]])) =
    Raise boom :: fst (worker log_then_check (mkReporter [0%nat]) [[5%nat]]).
Proof.
  apply (@collect_report_on_raise nat nat nat log_then_check [0%nat]
           fresh_reporter (mkReporter [0%nat]) boom [[5%nat]]).
  reflexivity.
Defined.

(** C2 fails as stated: after a chunk on which the user function recorded
    an entry and raised, the next chunk of the same worker starts with
    that entry in the Reporter, and carries it in its own reports. *)
Lemma reporter_not_cleared_on_raise :
  reporter_at_start log_then_check fresh_reporter [[0]; [5]]%nat
  = [fresh_reporter; mkReporter [0%nat]] /\
  _reports (snd (collect_report log_then_check [0%nat] fresh_reporter)) <> [] /\
  worker log_then_check fresh_reporter [[0]; [5]]%nat
  = ([Raise boom; Ok ([5], [0; 5])]%nat, fresh_reporter).
Proof. repeat split; try reflexivity. discriminate. Qed.

(** * The orchestrator *)

(** C1, as the code has it. When the first failure [batch] meets is an
    exception whose first argument is a string, [batch] prints a newline
    and that string, terminates the pool, and then ends normally: the
    exception is not raised again to the caller. The trace holds the
    merges, progress steps and yields of the batches received before the
    failure and no call of [bar.finish()]. *)
Theorem worker_error_is_swallowed :
  forall (Item Result Entry : Type) (W : nat) (sched : Schedule)
         (func : UserFunc Item Result Entry) (iterable : Iterable Item) (C : Z)
         (stream : list (PyResult (ResultBatch Result Entry)))
         (e : PyExc) (msg : string) (more : list PyArg),
    W <> O ->
    imap_unordered sched func iterable C = Ok stream ->
    first_failure stream = Some e ->
    exc_args e = ArgStr msg :: more ->
    batch W sched func iterable C =
    Finished (concat (map batch_events (received stream))
              ++ [Print (newline ++ msg)%string; Terminate; Terminate])
             (Ok tt).
Proof.
  intros Item Result Entry W sched func iterable C stream e msg more HW Hs Hf Ha.
  rewrite (@batch_unfold _ _ _ W sched func iterable C stream HW Hs).
  rewrite (batch_try_aborts _ Hf).
  pose proof (@batch_except_cases Result Entry e) as Hc. rewrite Ha in Hc.
  rewrite Hc. simpl. now rewrite <- app_assoc.
Qed.

Lemma worker_error_is_swallowed_witness :
  batch 1 (sequential 2) log_then_check (Plain [5; 0]%nat) 1 =
  Finished (concat (map batch_events (received [Ok ([5], [5]); Raise boom]%nat))
            ++ [Print (newline ++ "boom")%string; Terminate; Terminate])
           (Ok tt).
Proof.
  apply (@worker_error_is_swallowed nat nat nat 1%nat (sequential 2) log_then_check
           (Plain [5; 0]%nat) 1 [Ok ([5], [5]); Raise boom]%nat boom "boom" []);
    [discriminate | reflexivity | reflexivity | reflexivity].
Defined.

(** C1 fails as stated: with a user function that raises on the second
    of two chunks, [batch] yields the result of the first chunk, prints
    the message, terminates the pool and ends normally. *)
Lemma worker_error_ends_stream_normally :
  batch 1 (sequential 2) log_then_check (Plain [5; 0]%nat) 1 =
  Finished [Merge [5]; BarStep 1; Yield 5;
            Print (newline ++ "boom")%string; Terminate; Terminate]%nat
           (Ok tt) /\
  fst (log_then_check [0%nat] fresh_reporter) = Raise boom.
Proof. split; reflexivity. Qed.

Section TraceFacts.

Context {Result Entry : Type}.

Local Abbreviation Batch := (ResultBatch Result Entry).
Local Abbreviation Orch := (Orchestrator Entry).
Local Abbreviation Ev := (Event Result Entry).

Lemma yielded_app (tr1 tr2 : list Ev) : yielded (tr1 ++ tr2) = yielded tr1 ++ yielded tr2.
Proof. unfold yielded. apply flat_map_app. Qed.

Lemma yielded_yields (xs : list Result) : yielded (map (@Yield Result Entry) xs) = xs.
Proof. induction xs as [|x xs IH]; simpl; [reflexivity | now f_equal]. Qed.

Lemma yielded_batches (bs : list Batch) :
  yielded (concat (map batch_events bs)) = concat (map fst bs).
Proof.
  induction bs as [|[results reports] bs IH]; [reflexivity|].
  simpl. unfold batch_events at 1. simpl.
  change (yielded (map Yield results ++ concat (map batch_events bs))
          = results ++ concat (map fst bs)).
  now rewrite yielded_app, yielded_yields, IH.
Qed.

Lemma run_events_app (st : Orch) (tr1 tr2 : list Ev) :
  run_events st (tr1 ++ tr2) = run_events (run_events st tr1) tr2.
Proof. apply fold_left_app. Qed.

Lemma run_events_yields (st : Orch) (xs : list Result) :
  run_events st (map (@Yield Result Entry) xs) = st.
Proof. induction xs; simpl; auto. Qed.

Lemma snapshots_app (st : Orch) (tr1 tr2 : list Ev) :
  snapshots st (tr1 ++ tr2) = snapshots st tr1 ++ snapshots (run_events st tr1) tr2.
Proof.
  revert st. induction tr1 as [|ev tr1 IH]; intros st; [reflexivity|].
  destruct ev; simpl; rewrite IH; reflexivity.
Qed.

Lemma snapshots_yields (st : Orch) (xs : list Result) :
  snapshots st (map (@Yield Result Entry) xs) = map (fun x => (x, st)) xs.
Proof. induction xs as [|x xs IH]; simpl; [reflexivity | now rewrite IH]. Qed.

Lemma snapshots_fst (st : Orch) (tr : list Ev) :
  map fst (snapshots st tr) = yielded tr.
Proof.
  revert st. induction tr as [|ev tr IH]; intros st; [reflexivity|].
  destruct ev; simpl; rewrite ?IH; reflexivity.
Qed.


(** What the [except] clause adds to the trace leaves the bar alone. *)
Lemma batch_except_quiet (e : PyExc) :
  Forall (fun ev : Ev => match ev with Print _ | Terminate => True | _ => False end)
         (fst (batch_except e)).
Proof.
  pose proof (@batch_except_cases Result Entry e) as Hc.
  destruct (exc_args e) as [|[s|n|] rest].
  - destruct Hc as [e' ->]. constructor.
  - rewrite Hc. repeat constructor.
  - destruct Hc as [e' ->]. constructor.
  - destruct Hc as [e' ->]. constructor.
Qed.

Lemma quiet_run (st : Orch) (tr : list Ev) :
  Forall (fun ev : Ev => match ev with Print _ | Terminate => True | _ => False end) tr ->
  main_reporter (run_events st tr) = main_reporter st /\
  bar_done (run_events st tr) = bar_done st /\
  bar_finished (run_events st tr) = bar_finished st /\
  snapshots st tr = [] /\ yielded tr = [] /\ ~ In BarFinish tr.
Proof.
  intros H. revert st. induction H as [|ev tr Hev _ IH]; intros st.
  - simpl. repeat split; auto.
  - destruct ev as [r|n|x| |s| ]; try contradiction.
    + destruct (IH (apply_event st (@Print Result Entry s))) as (A & B & D & E & F & G).
      simpl in *. repeat split; auto. intros [K|K]; [discriminate | auto].
    + destruct (IH (apply_event st (@Terminate Result Entry))) as (A & B & D & E & F & G).
      simpl in *. repeat split; auto. intros [K|K]; [discriminate | auto].
Qed.

End TraceFacts.

Lemma received_all {A} (stream : list (PyResult A)) :
  first_failure stream = None -> stream = map Ok (received stream).
Proof.
  induction stream as [|[a|e] stream IH]; simpl; intros H;
    [reflexivity | f_equal; auto | discriminate].
Qed.

(** The shape of every run of [batch] that reaches the [try] statement. *)
Lemma batch_trace {Item Result Entry : Type} (W : nat) sched
  (func : UserFunc Item Result Entry) iterable C stream :
  W <> O ->
  imap_unordered sched func iterable C = Ok stream ->
  exists tail outcome,
    batch W sched func iterable C =
      Finished (concat (map batch_events (received stream)) ++ tail) outcome /\
    ((first_failure stream = None /\ tail = [BarFinish; Terminate] /\ outcome = Ok tt) \/
     (exists e, first_failure stream = Some e /\
                tail = fst (batch_except e) ++ [Terminate] /\
                outcome = snd (batch_except (Result:=Result) (Entry:=Entry) e))).
Proof.
  intros HW Hs.
  rewrite (@batch_unfold _ _ _ W sched func iterable C stream HW Hs).
  destruct (first_failure stream) as [e|] eqn:Hf.
  - rewrite (batch_try_aborts _ Hf). simpl.
    do 2 eexists. split; [now rewrite <- app_assoc|]. right. eauto.
  - rewrite (batch_try_completes _ Hf). simpl.
    do 2 eexists. split; [now rewrite <- app_assoc|]. left. auto.
Qed.

(** C6. Whatever stream of batches the pool hands over, [batch] treats
    the batches it receives in their order of arrival: for each it
    appends the reports to the main Reporter, advances the bar by the
    number of results, and yields the results one by one. After them the
    main Reporter holds its former entries followed by the reports of
    the batches in arrival order, the bar has advanced by the number of
    results, and the caller has been handed the results in arrival order.
    When no batch failed, all batches are received and [batch] then calls
    [bar.finish()]. *)
Theorem batch_merges_advances_yields :
  forall (Item Result Entry : Type) (W : nat) (sched : Schedule)
         (func : UserFunc Item Result Entry) (iterable : Iterable Item) (C : Z)
         (stream : list (PyResult (ResultBatch Result Entry)))
         (main : Reporter Entry),
    W <> O ->
    imap_unordered sched func iterable C = Ok stream ->
    exists tail outcome,
      batch W sched func iterable C =
        Finished (concat (map (fun b => Merge (snd b) :: BarStep (length (fst b))
                                          :: map Yield (fst b))
                              (received stream)) ++ tail) outcome /\
      main_reporter (run_events (start main) (concat (map batch_events (received stream))))
        = merge main (merged_reports (received stream)) /\
      bar_done (run_events (start main) (concat (map batch_events (received stream))))
        = results_count (received stream) /\
      yielded (concat (map batch_events (received stream)) ++ tail)
        = concat (map fst (received stream)) /\
      (first_failure stream = None ->
         stream = map Ok (received stream) /\
         tail = [BarFinish; Terminate] /\ outcome = Ok tt /\
         bar_finished (run_events (start main)
                         (concat (map batch_events (received stream)) ++ tail)) = true).
Proof.
  intros Item Result Entry W sched func iterable C stream main HW Hs.
  destruct (@batch_trace _ _ _ W sched func iterable C stream HW Hs)
    as (tail & outcome & Hb & Hcase).
  exists tail, outcome. split; [exact Hb|].
  rewrite run_events_batches. simpl.
  split; [reflexivity|]. split; [reflexivity|]. split.
  - rewrite yielded_app, yielded_batches.
    destruct Hcase as [(_ & -> & _)|(e & _ & -> & _)].
    + apply app_nil_r.
    + rewrite yielded_app.
      destruct (quiet_run (start main) (batch_except_quiet (Result:=Result) (Entry:=Entry) e))
        as (_ & _ & _ & _ & -> & _).
      apply app_nil_r.
  - intros Hnone. destruct Hcase as [(_ & -> & ->)|(e & He & _)]; [|congruence].
    split; [now apply received_all|]. split; [reflexivity|]. split; [reflexivity|].
    rewrite run_events_app, run_events_batches. reflexivity.
Qed.

Lemma batch_merges_advances_yields_witness :
  exists tail outcome,
    batch 2 (mkSchedule (fun i => i) [1; 0]%nat) log_then_check (Plain [5; 6; 7]%nat) 2 =
      Finished (concat (map (fun b => Merge (snd b) :: BarStep (length (fst b))
                                        :: map Yield (fst b))
                            (received [Ok ([7], [7]); Ok ([5; 6], [5; 6])]%nat)) ++ tail)
               outcome /\
    main_reporter (run_events (start (mkReporter [1%nat]))
       (concat (map batch_events (received [Ok ([7], [7]); Ok ([5; 6], [5; 6])]%nat))))
      = merge (mkReporter [1%nat])
              (merged_reports (received [Ok ([7], [7]); Ok ([5; 6], [5; 6])]%nat)) /\
    bar_done (run_events (start (mkReporter [1%nat]))
       (concat (map batch_events (received [Ok ([7], [7]); Ok ([5; 6], [5; 6])]%nat))))
      = results_count (received [Ok ([7], [7]); Ok ([5; 6], [5; 6])]%nat) /\
    yielded (concat (map batch_events (received [Ok ([7], [7]); Ok ([5; 6], [5; 6])]%nat))
             ++ tail)
      = concat (map fst (received [Ok ([7], [7]); Ok ([5; 6], [5; 6])]%nat)) /\
    (first_failure [Ok ([7], [7]); Ok ([5; 6], [5; 6])]%nat = None ->
       [Ok ([7], [7]); Ok ([5; 6], [5; 6])]%nat
         = map Ok (received [Ok ([7], [7]); Ok ([5; 6], [5; 6])]%nat) /\
       tail = [BarFinish; Terminate] /\ outcome = Ok tt /\
       bar_finished (run_events (start (mkReporter [1%nat]))
          (concat (map batch_events (received [Ok ([7], [7]); Ok ([5; 6], [5; 6])]%nat))
           ++ tail)) = true).
Proof.
  apply (@batch_merges_advances_yields nat nat nat 2%nat
           (mkSchedule (fun i => i) [1; 0]%nat) log_then_check (Plain [5; 6; 7]%nat) 2
           [Ok ([7], [7]); Ok ([5; 6], [5; 6])]%nat (mkReporter [1%nat]));
    [discriminate | reflexivity].
Defined.

Example batch_out_of_order :
  batch 2 (mkSchedule (fun i => i) [1; 0]%nat) log_then_check (Plain [5; 6; 7]%nat) 2 =
  Finished [Merge [7]; BarStep 1; Yield 7;
            Merge [5; 6]; BarStep 2; Yield 5; Yield 6; BarFinish; Terminate]%nat (Ok tt).
Proof. reflexivity. Qed.

(** Where the caller stands when it is handed an item of a received batch. *)
Lemma snapshots_batches {Result Entry : Type}
  (bs : list (ResultBatch Result Entry)) (st st' : Orchestrator Entry) (x : Result) :
  In (x, st') (snapshots st (concat (map batch_events bs))) ->
  exists pre b post,
    bs = pre ++ b :: post /\ In x (fst b) /\
    st' = run_events st (concat (map batch_events pre)
                         ++ [Merge (snd b); BarStep (length (fst b))]).
Proof.
  revert st st'. induction bs as [|[results reports] bs IH]; intros st st'; simpl; [tauto|].
  rewrite snapshots_app, snapshots_yields, run_events_yields.
  intros Hin. apply in_app_or in Hin. destruct Hin as [Hin|Hin].
  - apply in_map_iff in Hin. destruct Hin as (y & Hy & Hiny). injection Hy as -> <-.
    exists [], (results, reports), bs. repeat split; auto.
  - destruct (IH _ _ Hin) as (pre & b & post & -> & Hx & ->).
    exists ((results, reports) :: pre), b, post. repeat split; auto.
    change (concat (map batch_events ((results, reports) :: pre)))
      with ([Merge reports; BarStep (length results)]
            ++ map Yield results ++ concat (map batch_events pre)).
    rewrite <- !app_assoc.
    rewrite (run_events_app st [Merge reports; BarStep (length results)]).
    rewrite (run_events_app _ (map Yield results)), run_events_yields.
    reflexivity.
Qed.

(** C10. Each time the caller is handed a result item, the item belongs to
    a batch [b] that [batch] has received, and at that moment the main
    Reporter already holds its former entries, the reports of the batches
    received before [b] and the reports of [b] itself, while the bar has
    already advanced by the results of those batches and of [b]. Every
    yielded item is covered: the snapshots are those of the yielded items,
    in order. *)
Theorem reports_merged_before_yield :
  forall (Item Result Entry : Type) (W : nat) (sched : Schedule)
         (func : UserFunc Item Result Entry) (iterable : Iterable Item) (C : Z)
         (stream : list (PyResult (ResultBatch Result Entry)))
         (main : Reporter Entry) (tr : list (Event Result Entry))
         (outcome : PyResult unit),
    W <> O ->
    imap_unordered sched func iterable C = Ok stream ->
    batch W sched func iterable C = Finished tr outcome ->
    map fst (snapshots (start main) tr) = yielded tr /\
    forall x st,
      In (x, st) (snapshots (start main) tr) ->
      exists pre b post,
        received stream = pre ++ b :: post /\
        In x (fst b) /\
        _reports (main_reporter st) = _reports main ++ merged_reports pre ++ snd b /\
        bar_done st = (results_count pre + length (fst b))%nat.
Proof.
  intros Item Result Entry W sched func iterable C stream main tr outcome HW Hs Hb.
  split; [apply snapshots_fst|].
  destruct (@batch_trace _ _ _ W sched func iterable C stream HW Hs)
    as (tail & outcome' & Hb' & Hcase).
  rewrite Hb' in Hb. injection Hb as <- _.
  assert (Htail : forall s : Orchestrator Entry, snapshots s tail = []).
  { intros s. destruct Hcase as [(_ & -> & _)|(e & _ & -> & _)]; [reflexivity|].
    rewrite snapshots_app.
    destruct (quiet_run s (batch_except_quiet (Result:=Result) (Entry:=Entry) e))
      as (_ & _ & _ & -> & _).
    reflexivity. }
  intros x st Hin. rewrite snapshots_app, Htail, app_nil_r in Hin.
  destruct (@snapshots_batches _ _ _ _ _ _ Hin) as (pre & b & post & Hrec & Hx & ->).
  exists pre, b, post. split; [exact Hrec|]. split; [exact Hx|].
  rewrite run_events_app, run_events_batches. simpl.
  split; [now rewrite <- app_assoc | reflexivity].
Qed.

Lemma reports_merged_before_yield_witness :
  map fst (snapshots (start (mkReporter [1%nat]))
     [Merge [7]; BarStep 1; Yield 7;
      Merge [5; 6]; BarStep 2; Yield 5; Yield 6; BarFinish; Terminate]%nat)
  = yielded [Merge [7]; BarStep 1; Yield 7;
             Merge [5; 6]; BarStep 2; Yield 5; Yield 6; BarFinish; Terminate]%nat /\
  forall x st,
    In (x, st) (snapshots (start (mkReporter [1%nat]))
       [Merge [7]; BarStep 1; Yield 7;
        Merge [5; 6]; BarStep 2; Yield 5; Yield 6; BarFinish; Terminate]%nat) ->
    exists pre b post,
      received [Ok ([7], [7]); Ok ([5; 6], [5; 6])]%nat = pre ++ b :: post /\
      In x (fst b) /\
      _reports (main_reporter st) = [1%nat] ++ merged_reports pre ++ snd b /\
      bar_done st = (results_count pre + length (fst b))%nat.
Proof.
  apply (@reports_merged_before_yield nat nat nat 2%nat
           (mkSchedule (fun i => i) [1; 0]%nat) log_then_check (Plain [5; 6; 7]%nat) 2
           [Ok ([7], [7]); Ok ([5; 6], [5; 6])]%nat (mkReporter [1%nat])
           [Merge [7]; BarStep 1; Yield 7;
            Merge [5; 6]; BarStep 2; Yield 5; Yield 6; BarFinish; Terminate]%nat (Ok tt));
    [discriminate | reflexivity | reflexivity].
Defined.




(** The stream a valid schedule produces is a rearrangement of the
    outcomes of the tasks. *)
Lemma imap_unordered_stream {Item Result Entry : Type} (W : nat) sched
  (func : UserFunc Item Result Entry) iterable C chunks :
  task_batches iterable C = Ok chunks ->
  valid_schedule W (length chunks) sched ->
  exists stream,
    imap_unordered sched func iterable C = Ok stream /\
    Permutation stream
      (run_tasks func (assign sched) (fun _ => fresh_reporter) 0 chunks).
Proof.
  intros Hc [_ Hperm].
  eexists. split; [apply imap_unordered_unfold; exact Hc|].
  apply in_arrival_order_perm. now rewrite run_tasks_length.
Qed.

(** A chunk on which the user function raised shows as a failure in the
    stream of any valid schedule. *)
Lemma failure_reaches_stream {Item Result Entry : Type} (W : nat) sched
  (func : UserFunc Item Result Entry) iterable C chunks e :
  task_batches iterable C = Ok chunks ->
  valid_schedule W (length chunks) sched ->
  In (Raise e) (run_tasks func (assign sched) (fun _ => fresh_reporter) 0 chunks) ->
  exists stream e',
    imap_unordered sched func iterable C = Ok stream /\
    first_failure stream = Some e'.
Proof.
  intros Hc Hv Hin.
  destruct (@imap_unordered_stream _ _ _ W sched func iterable C chunks Hc Hv)
    as (stream & Hs & Hperm).
  exists stream.
  destruct (first_failure stream) as [e'|] eqn:Hf; [eauto|].
  apply first_failure_none in Hf.
  pose proof (Permutation_Forall Hperm Hf) as Hall.
  rewrite Forall_forall in Hall. specialize (Hall _ Hin). discriminate.
Qed.






Example batch_succeeds_out_of_order :
  batch 2 (mkSchedule (fun i => i) [1; 0]%nat) log_then_check (Plain [5; 6; 7; 8]%nat) 2 =
  Finished [Merge [7; 8]; BarStep 2; Yield 7; Yield 8;
            Merge [5; 6]; BarStep 2; Yield 5; Yield 6; BarFinish; Terminate]%nat (Ok tt).
Proof. reflexivity. Qed.

Example batch_aborts_midway :
  batch 1 (sequential 3) log_then_check (Plain [5; 6; 0; 7; 8]%nat) 2 =
  Finished [Merge [5; 6]; BarStep 2; Yield 5; Yield 6;
            Print (newline ++ "boom")%string; Terminate; Terminate]%nat (Ok tt).
Proof. reflexivity. Qed.

(** * Further properties of the chunk source and the stream *)

(** X1. On the same rows and with a chunk size between 1 and
    [sys.maxsize], the plain chunk source and the paginated one, over any
    source consistent with the rows, cut the same chunks. *)
Theorem plain_and_paginated_chunks_agree :
  forall (Item : Type) (rows : list Item) (q : SelectQuery Item) (C : Z),
    1 <= C <= sys_maxsize ->
    consistent q rows ->
    task_batches (Plain rows) C = task_batches (Query q) C.
Proof.
  intros Item rows q C HC [Hcount Hwin]. simpl.
  rewrite get_tasks_from_query_windows by lia.
  unfold _get_tasks.
  replace (C <? 0) with false by (symmetry; apply Z.ltb_ge; lia).
  replace (sys_maxsize <? C) with false by (symmetry; apply Z.ltb_ge; lia).
  rewrite get_tasks_loop_windows by lia. simpl. rewrite Hcount. f_equal.
  apply map_ext. intros k. rewrite Hwin by lia.
  rewrite <- (window_nat rows (Z.to_nat C) k), Z2Nat.id by lia. reflexivity.
Qed.

Lemma plain_and_paginated_chunks_agree_witness :
  task_batches (Plain [1; 2; 3; 4; 5]%nat) 2
  = task_batches (Query (table_query [1; 2; 3; 4; 5]%nat)) 2.
Proof.
  apply (@plain_and_paginated_chunks_agree nat [1; 2; 3; 4; 5]%nat
           (table_query [1; 2; 3; 4; 5]%nat) 2).
  - unfold sys_maxsize. lia.
  - split; [reflexivity | intros; reflexivity].
Defined.

(** X2. For a plain sequence of N items, a chunk size between 1 and
    [sys.maxsize] and any valid schedule, the stream of
    [imap_unordered] holds [ceil(N/C)] outcomes, one for each chunk: each
    is what [collect_report] made of the user function on a chunk, the
    chunk of index [k] being the run of items from position [k*C]. No
    chunk is empty, so the user function is never called without
    arguments; every chunk but the last holds [C] items and the last
    holds what is left. *)
Theorem plain_chunks_are_full_windows :
  forall (Item Result Entry : Type) (items : list Item) (C : Z) (W : nat)
         (sched : Schedule) (func : UserFunc Item Result Entry),
    1 <= C <= sys_maxsize ->
    valid_schedule W (ceil_div (length items) (Z.to_nat C)) sched ->
    exists chunks stream outs,
      imap_unordered sched func (Plain items) C = Ok stream /\
      length stream = ceil_div (length items) (Z.to_nat C) /\
      Permutation stream outs /\
      Forall2 (fun chunk out => exists r, out = fst (collect_report func chunk r))
              chunks outs /\
      forall k chunk,
        nth_error chunks k = Some chunk ->
        chunk = firstn (Z.to_nat C) (skipn (k * Z.to_nat C) items) /\
        chunk <> [] /\
        length chunk =
          if (S k <? length chunks)%nat then Z.to_nat C
          else (length items - k * Z.to_nat C)%nat.
Proof.
  intros Item Result Entry items C W sched func HC Hv.
  set (c := Z.to_nat C) in *. assert (Hc : (0 < c)%nat) by (unfold c; lia).
  set (n := ceil_div (length items) c) in *.
  set (chunks := map (fun k => firstn c (skipn (k * c) items)) (seq 0 n)).
  assert (Hok : task_batches (Plain items) C = Ok chunks).
  { simpl. unfold _get_tasks.
    replace (C <? 0) with false by (symmetry; apply Z.ltb_ge; lia).
    replace (sys_maxsize <? C) with false by (symmetry; apply Z.ltb_ge; lia).
    simpl. fold c. now rewrite get_tasks_loop_windows by assumption. }
  assert (Hn : length chunks = n) by (unfold chunks; now rewrite length_map, length_seq).
  rewrite <- Hn in Hv.
  destruct (@imap_unordered_stream _ _ _ W sched func (Plain items) C chunks Hok Hv)
    as (stream & Hs & Hperm).
  exists chunks, stream, (run_tasks func (assign sched) (fun _ => fresh_reporter) 0 chunks).
  split; [exact Hs|]. split.
  { rewrite (Permutation_length Hperm), run_tasks_length. exact Hn. }
  split; [exact Hperm|]. split; [apply run_tasks_calls|].
  rewrite Hn. intros k chunk Hk.
  assert (Hlt : (k < n)%nat).
  { assert (Hsome : nth_error chunks k <> None) by congruence.
    apply nth_error_Some in Hsome. now rewrite Hn in Hsome. }
  unfold chunks in Hk. rewrite nth_error_map, nth_error_seq in Hk.
  apply Nat.ltb_lt in Hlt. rewrite Hlt in Hk. apply Nat.ltb_lt in Hlt.
  simpl in Hk. injection Hk as <-.
  destruct (@ceil_div_bounds (length items) c Hc) as [Hhi Hlo]. fold n in Hhi, Hlo.
  assert (Hpos : (0 < length items)%nat).
  { destruct (Nat.eq_dec (length items) 0) as [E0|]; [|lia].
    unfold n in Hlt. rewrite E0, ceil_div_zero in Hlt by lia. lia. }
  destruct (Hlo Hpos) as [Hlo' _].
  assert (Hlen : length (firstn c (skipn (k * c) items))
                 = if (S k <? n)%nat then c else (length items - k * c)%nat).
  { rewrite window_length.
    destruct (Nat.ltb_spec (S k) n) as [Hin|Hlast].
    - apply Nat.min_l. nia.
    - assert (k = (n - 1)%nat) by lia. subst k. apply Nat.min_r. nia. }
  split; [reflexivity|]. split; [|exact Hlen].
  intros Hnil. rewrite Hnil in Hlen. simpl in Hlen.
  destruct (Nat.ltb_spec (S k) n) as [Hin|Hlast]; [lia|].
  assert (k = (n - 1)%nat) by lia. subst k. lia.
Qed.

Lemma plain_chunks_are_full_windows_witness :
  exists chunks stream outs,
    imap_unordered (mkSchedule (fun i => i) [2; 0; 1]%nat) log_then_check
                   (Plain [1; 2; 3; 4; 5; 6; 7]%nat) 3 = Ok stream /\
    length stream = ceil_div (length [1; 2; 3; 4; 5; 6; 7]%nat) (Z.to_nat 3) /\
    Permutation stream outs /\
    Forall2 (fun chunk out => exists r, out = fst (collect_report log_then_check chunk r))
            chunks outs /\
    forall k chunk,
      nth_error chunks k = Some chunk ->
      chunk = firstn (Z.to_nat 3) (skipn (k * Z.to_nat 3) [1; 2; 3; 4; 5; 6; 7]%nat) /\
      chunk <> [] /\
      length chunk =
        if (S k <? length chunks)%nat then Z.to_nat 3
        else (length [1; 2; 3; 4; 5; 6; 7]%nat - k * Z.to_nat 3)%nat.
Proof.
  apply (@plain_chunks_are_full_windows nat nat nat [1; 2; 3; 4; 5; 6; 7]%nat 3 3%nat
           (mkSchedule (fun i => i) [2; 0; 1]%nat) log_then_check).
  - unfold sys_maxsize. lia.
  - split.
    + intros i Hi. simpl in *. exact Hi.
    + simpl. eapply perm_trans; [apply perm_swap | apply perm_skip, perm_swap].
Defined.

Section ItemwiseFacts.

Context {Item Result Entry : Type}.
Variable f : Item -> Result.

Local Abbreviation Batch := (ResultBatch Result Entry).


Lemma itemwise_never_raises : never_raises (itemwise (Entry:=Entry) f).
Proof. intros chunk reporter. reflexivity. Qed.

Lemma yielded_of_stream (stream : list (PyResult Batch)) :
  first_failure stream = None ->
  concat (map fst (received stream))
  = flat_map (fun o => match o with Ok b => fst b | Raise _ => [] end) stream.
Proof.
  induction stream as [|[b|e] stream IH]; simpl; intros H;
    [reflexivity | now rewrite IH | discriminate].
Qed.


End ItemwiseFacts.

(** * Coverage *)

Section SpyFacts.

Context {Item Entry : Type}.

Lemma run_tasks_spy assign (st : nat -> Reporter Entry) i (chunks : list (list Item)) :
  (forall w, st w = fresh_reporter) ->
  run_tasks spy assign st i chunks = map (fun chunk => Ok ([chunk], [])) chunks.
Proof.
  revert st i. induction chunks as [|c cs IH]; intros st i Hst; simpl; [reflexivity|].
  unfold collect_report, spy at 1. rewrite Hst. simpl. f_equal.
  apply IH. intros w. unfold set_reporter. destruct (Nat.eqb w (assign i)); auto.
Qed.

Lemma results_of_spy (chunks : list (list Item)) :
  flat_map (fun o : PyResult (ResultBatch (list Item) Entry) =>
              match o with Ok b => fst b | Raise _ => [] end)
           (map (fun chunk => Ok ([chunk], [])) chunks)
  = chunks.
Proof. induction chunks as [|c cs IH]; simpl; [reflexivity | now rewrite IH]. Qed.

End SpyFacts.

Lemma Permutation_concat {A} (l l' : list (list A)) :
  Permutation l l' -> Permutation (concat l) (concat l').
Proof.
  intros H. rewrite <- (map_id l), <- (map_id l'), <- !flat_map_concat_map.
  now apply Permutation_flat_map.
Qed.

(** C3, as the code has it. For a plain sequence with a chunk size
    between 1 and [sys.maxsize], or a consistent paginated source with a
    chunk size of at least 1, holding [items], and for any number of
    workers under any valid schedule: the stream of [imap_unordered]
    holds, for every user function, one outcome of [collect_report] for
    each chunk of the chunk source; and a user function that hands back
    the chunk it is called with makes [batch] yield, in some order,
    exactly those chunks. Put end to end in source order they are
    [items]; the items of the chunks received are those of [items], each
    exactly once, and each chunk received is a run of consecutive items
    in their original order. *)
Theorem chunks_cover_input_exactly_once :
  forall (Item Result Entry : Type) (iterable : Iterable Item) (items : list Item)
         (C : Z) (W : nat) (sched : Schedule),
    1 <= C ->
    chunksize_accepted iterable C ->
    source_of iterable items ->
    W <> O ->
    valid_schedule W (ceil_div (length items) (Z.to_nat C)) sched ->
    exists (chunks : list (list Item)) (tr : list (Event (list Item) Entry)),
      task_batches iterable C = Ok chunks /\
      concat chunks = items /\
      batch W sched spy iterable C = Finished tr (Ok tt) /\
      Permutation (yielded tr) chunks /\
      Permutation (concat (yielded tr)) items /\
      (forall chunk, In chunk (yielded tr) ->
         exists pre post, items = pre ++ chunk ++ post) /\
      (forall func : UserFunc Item Result Entry,
         exists stream outs,
           imap_unordered sched func iterable C = Ok stream /\
           Permutation stream outs /\
           Forall2 (fun chunk out => exists r, out = fst (collect_report func chunk r))
                   chunks outs).
Proof.
  intros Item Result Entry iterable items C W sched HC Hacc Hsrc HW Hv.
  destruct (task_batches_succeeds _ _ HC Hacc Hsrc) as (chunks & Hc & Hcat & Hlen).
  rewrite <- Hlen in Hv.
  destruct (@imap_unordered_stream _ (list Item) Entry W sched spy iterable C chunks Hc Hv)
    as (stream & Hs & Hperm).
  rewrite run_tasks_spy in Hperm by reflexivity.
  assert (Hnone : first_failure stream = None).
  { apply first_failure_none. apply (Permutation_Forall (Permutation_sym Hperm)).
    apply Forall_forall. intros o Ho. apply in_map_iff in Ho.
    destruct Ho as (c & <- & _). reflexivity. }
  assert (Hy : Permutation
                 (yielded (concat (map batch_events (received stream))
                           ++ [@BarFinish (list Item) Entry] ++ [Terminate]))
                 chunks).
  { rewrite !yielded_app, yielded_batches. simpl. rewrite !app_nil_r.
    rewrite (yielded_of_stream _ Hnone), <- (results_of_spy (Entry:=Entry) chunks).
    apply Permutation_flat_map. exact Hperm. }
  exists chunks. eexists.
  split; [exact Hc|]. split; [exact Hcat|]. split.
  { rewrite (@batch_unfold _ _ _ W sched spy iterable C stream HW Hs).
    rewrite (batch_try_completes _ Hnone). simpl. rewrite <- app_assoc. reflexivity. }
  split; [exact Hy|]. split.
  { rewrite <- Hcat. apply Permutation_concat. exact Hy. }
  split.
  { intros chunk Hin. rewrite <- Hcat. apply in_concat_segment.
    apply (Permutation_in _ Hy Hin). }
  intros func.
  destruct (@imap_unordered_stream _ Result Entry W sched func iterable C chunks Hc Hv)
    as (stream' & Hs' & Hperm').
  exists stream'. eexists. split; [exact Hs'|]. split; [exact Hperm'|].
  apply run_tasks_calls.
Qed.

Lemma chunks_cover_input_exactly_once_witness :
  (exists (chunks : list (list nat)) (tr : list (Event (list nat) nat)),
      task_batches (Plain [1; 2; 3; 4; 5]%nat) 2 = Ok chunks /\
      concat chunks = [1; 2; 3; 4; 5]%nat /\
      batch 2 (mkSchedule (fun i => Nat.modulo i 2) [2; 0; 1]%nat) spy
            (Plain [1; 2; 3; 4; 5]%nat) 2 = Finished tr (Ok tt) /\
      Permutation (yielded tr) chunks /\
      Permutation (concat (yielded tr)) [1; 2; 3; 4; 5]%nat /\
      (forall chunk, In chunk (yielded tr) ->
         exists pre post, [1; 2; 3; 4; 5]%nat = pre ++ chunk ++ post) /\
      (forall func : UserFunc nat nat nat,
         exists stream outs,
           imap_unordered (mkSchedule (fun i => Nat.modulo i 2) [2; 0; 1]%nat) func
                          (Plain [1; 2; 3; 4; 5]%nat) 2 = Ok stream /\
           Permutation stream outs /\
           Forall2 (fun chunk out => exists r, out = fst (collect_report func chunk r))
                   chunks outs)) /\
  (exists (chunks : list (list nat)) (tr : list (Event (list nat) nat)),
      task_batches (Query (table_query [1; 2; 3; 4; 5]%nat)) 2 = Ok chunks /\
      concat chunks = [1; 2; 3; 4; 5]%nat /\
      batch 1 (sequential 3) spy (Query (table_query [1; 2; 3; 4; 5]%nat)) 2
      = Finished tr (Ok tt) /\
      Permutation (yielded tr) chunks /\
      Permutation (concat (yielded tr)) [1; 2; 3; 4; 5]%nat /\
      (forall chunk, In chunk (yielded tr) ->
         exists pre post, [1; 2; 3; 4; 5]%nat = pre ++ chunk ++ post) /\
      (forall func : UserFunc nat nat nat,
         exists stream outs,
           imap_unordered (sequential 3) func
                          (Query (table_query [1; 2; 3; 4; 5]%nat)) 2 = Ok stream /\
           Permutation stream outs /\
           Forall2 (fun chunk out => exists r, out = fst (collect_report func chunk r))
                   chunks outs)).
Proof.
  split.
  - apply (@chunks_cover_input_exactly_once nat nat nat
             (Plain [1; 2; 3; 4; 5]%nat) [1; 2; 3; 4; 5]%nat 2 2%nat
             (mkSchedule (fun i => Nat.modulo i 2) [2; 0; 1]%nat)).
    + lia.
    + unfold chunksize_accepted, sys_maxsize. lia.
    + reflexivity.
    + discriminate.
    + split.
      * intros i _. simpl. destruct (snd (Nat.divmod i 1 0 1)) as [|[|?]]; lia.
      * simpl. eapply perm_trans; [apply perm_swap | apply perm_skip, perm_swap].
  - apply (@chunks_cover_input_exactly_once nat nat nat
             (Query (table_query [1; 2; 3; 4; 5]%nat)) [1; 2; 3; 4; 5]%nat 2 1%nat
             (sequential 3)).
    + lia.
    + exact I.
    + split; [reflexivity | intros; reflexivity].
    + discriminate.
    + split; [intros i _; simpl; lia | apply Permutation_refl].
Defined.

(** C3 fails as stated: with a chunk size of [2^63] over a plain sequence
    of three items [islice] refuses the size, the task generator raises
    and no chunk at all is handed to the user function. *)
Lemma oversized_chunksize_feeds_no_chunk :
  1 <= 2 ^ 63 /\
  task_batches (Plain [1; 2; 3]%nat) (2 ^ 63)
  = Raise (ValueError
             "Stop argument for islice() must be None or an integer: 0 <= x <= sys.maxsize.") /\
  batch 1 (sequential 1) (@spy nat nat) (Plain [1; 2; 3]%nat) (2 ^ 63)
  = TaskFeedFailed (ValueError
             "Stop argument for islice() must be None or an integer: 0 <= x <= sys.maxsize.").
Proof. repeat split; try reflexivity. lia. Qed.

Example batch_of_spy :
  batch 2 (mkSchedule (fun i => Nat.modulo i 2) [2; 0; 1]%nat) (@spy nat nat)
        (Plain [1; 2; 3; 4; 5]%nat) 2
  = Finished [Merge []; BarStep 1; Yield [5];
              Merge []; BarStep 1; Yield [1; 2];
              Merge []; BarStep 1; Yield [3; 4]; BarFinish; Terminate]%nat (Ok tt).
Proof. reflexivity. Qed.





(** * The command-line helpers *)

Lemma lower_char_idempotent (c : ascii) : lower_char (lower_char c) = lower_char c.
Proof. destruct c as [[] [] [] [] [] [] [] []]; reflexivity. Qed.

Lemma py_lower_idempotent (s : string) : py_lower (py_lower s) = py_lower s.
Proof.
  induction s as [|c s IH]; simpl; [reflexivity|].
  now rewrite lower_char_idempotent, IH.
Qed.

Lemma py_lower_empty (s : string) : String.eqb (py_lower s) "" = String.eqb s "".
Proof. destruct s; reflexivity. Qed.

Lemma confirm_answer_lower (default : option bool) (value : string) :
  confirm_answer default (py_lower value) = confirm_answer default value.
Proof.
  unfold confirm_answer. now rewrite py_lower_idempotent, py_lower_empty.
Qed.

(** X5. [confirm] returns [b] exactly when the keys read start with
    lines that answer nothing, followed by a line that answers [b]: it
    has then asked once per line read, and the keys after the answering
    line are left unread. A line answers yes or no by what it spells in
    lower case; an empty line answers the default, when there is one. *)
Theorem confirm_returns_first_answer :
  forall (text : string) (default : option bool) (stdin : list Key)
         (evs : list TermEvent) (b : bool) (rest : list Key),
    confirm text default stdin = (evs, Ok b, rest) <->
    exists skipped value,
      stdin = map Line skipped ++ Line value :: rest /\
      Forall (fun v => confirm_answer default v = None) skipped /\
      confirm_answer default value = Some b /\
      evs = repeat (Asked false (confirm_prompt text default)) (S (length skipped)).
Proof.
  intros text default stdin. induction stdin as [|k stdin IH]; intros evs b rest.
  - simpl. split; [discriminate|].
    intros (skipped & value & E & _). destruct skipped; discriminate.
  - destruct k as [value|].
    + simpl. destruct (confirm_answer default value) as [b'|] eqn:Ea.
      * split.
        -- intros E. injection E as <- <- <-.
           exists [], value. repeat split; auto.
        -- intros (skipped & v & E & Hs & Hv & ->).
           destruct skipped as [|s skipped]; simpl in E; injection E as -> ->.
           ++ rewrite Ea in Hv. injection Hv as ->. reflexivity.
           ++ inversion Hs; subst. congruence.
      * split.
        -- intros E.
           destruct (confirm text default stdin) as [[evs' out'] rest'] eqn:Ec.
           simpl in E. injection E as <- -> ->.
           destruct (proj1 (IH evs' b rest) eq_refl) as (skipped & v & -> & Hs & Hv & ->).
           exists (value :: skipped), v. repeat split; auto.
        -- intros (skipped & v & E & Hs & Hv & ->).
           destruct skipped as [|s skipped]; simpl in E; injection E as -> E'.
           ++ congruence.
           ++ inversion Hs; subst.
              rewrite (proj2 (IH (repeat (Asked false (confirm_prompt text default))
                                         (S (length skipped))) b rest)).
              ** reflexivity.
              ** exists skipped, v. repeat split; auto.
    + simpl. split; [discriminate|].
      intros (skipped & value & E & _). destruct skipped; discriminate.
Qed.

(** X6. [confirm] never lets an interrupt or the end of input escape:
    whatever the keys, it either returns a boolean or writes a newline
    and "Aborted." on stderr and exits with status 1, having done
    nothing else than ask its question. *)
Theorem confirm_answers_or_aborts :
  forall (text : string) (default : option bool) (stdin : list Key),
    exists n rest,
      (exists b, confirm text default stdin
                 = (repeat (Asked false (confirm_prompt text default)) n, Ok b, rest)) \/
      confirm text default stdin
      = (repeat (Asked false (confirm_prompt text default)) n
         ++ [ErrWritten (newline ++ "Aborted.")%string],
         Raise (SystemExit 1), rest).
Proof.
  intros text default stdin. induction stdin as [|[value|] stdin IH].
  - exists 1%nat, []. right. reflexivity.
  - simpl. destruct (confirm_answer default value) as [b|].
    + exists 1%nat, stdin. left. exists b. reflexivity.
    + destruct IH as (n & rest & [(b & ->)| ->]).
      * exists (S n), rest. left. exists b. reflexivity.
      * exists (S n), rest. right. reflexivity.
  - exists 1%nat, stdin. right. reflexivity.
Qed.

(** X7. [confirm] does not see the case of what is typed: on the same
    keys put in lower case it asks as often and ends the same way. *)
Theorem confirm_ignores_case :
  forall (text : string) (default : option bool) (stdin : list Key),
    confirm text default (map lower_key stdin) =
    (fst (fst (confirm text default stdin)),
     snd (fst (confirm text default stdin)),
     map lower_key (snd (confirm text default stdin))).
Proof.
  intros text default stdin. induction stdin as [|[value|] stdin IH]; simpl.
  - reflexivity.
  - rewrite confirm_answer_lower.
    destruct (confirm_answer default value) as [b|]; [reflexivity|].
    rewrite IH. destruct (confirm text default stdin) as [[evs out] rest]. reflexivity.
  - reflexivity.
Qed.

Example confirm_yes_after_noise :
  confirm "Go on" None [Line "maybe"; Line ""; Line "YES"; Line "n"]
  = ([Asked false "Go on [yn]: "; Asked false "Go on [yn]: "; Asked false "Go on [yn]: "],
     Ok true, [Line "n"]).
Proof. reflexivity. Qed.

Example confirm_default_on_empty :
  confirm "Go on" (Some false) [Line ""; Line "y"]
  = ([Asked false "Go on [yN]: "], Ok false, [Line "y"]).
Proof. reflexivity. Qed.

(** Once [prompt] asks for the confirmation of a non-empty string, it
    returns only that string, on the first line that repeats it. *)
Lemma prompt_confirmation_loop text default confirmation coerce hidden
  (s : string) (stdin : list Key) evs v rest :
  s <> ""%string ->
  prompt_loop text default confirmation coerce hidden (Some (ArgStr s)) stdin
  = (evs, Ok v, rest) ->
  v = ArgStr s /\
  exists tries, stdin = map Line tries ++ Line s :: rest /\ Forall (fun t => t <> s) tries.
Proof.
  intros Hs. revert evs. induction stdin as [|[line|] stdin IH]; intros evs; simpl.
  - discriminate.
  - destruct (String.eqb_spec line "") as [->|Hne].
    + destruct (prompt_loop _ _ _ _ _ _ stdin) as [[evs' out'] rest'] eqn:E. simpl.
      intros H. injection H as _ -> ->.
      destruct (IH _ eq_refl) as (-> & tries & -> & Ht).
      split; [reflexivity|]. exists (""%string :: tries). split; [reflexivity|].
      constructor; auto.
    + destruct (String.eqb_spec s line) as [->|Hdiff].
      * intros H. injection H as _ <- <-.
        split; [reflexivity|]. exists []. split; [reflexivity | constructor].
      * destruct (prompt_loop _ _ _ _ _ _ stdin) as [[evs' out'] rest'] eqn:E. simpl.
        intros H. injection H as _ -> ->.
        destruct (IH _ eq_refl) as (-> & tries & -> & Ht).
        split; [reflexivity|]. exists (line :: tries). split; [reflexivity|].
        constructor; auto.
  - discriminate.
Qed.

(** X8. Without [coerce] and without default, the value [prompt] returns
    is the first non-empty line typed. Without confirmation nothing more
    is read. With confirmation [prompt] reads on until a line repeats
    that first value: a mistyped confirmation never lets the user enter
    the value afresh. *)
Theorem prompt_returns_first_entry :
  forall (text : string) (confirmation hidden : bool) (stdin : list Key)
         (evs : list TermEvent) (v : PyArg) (rest : list Key),
    prompt text None confirmation None hidden stdin = (evs, Ok v, rest) ->
    exists blanks s middle,
      stdin = map Line blanks ++ Line s :: middle ++ rest /\
      Forall (fun t => t = ""%string) blanks /\
      s <> ""%string /\
      v = ArgStr s /\
      if confirmation
      then exists tries, middle = map Line tries ++ [Line s] /\
                         Forall (fun t => t <> s) tries
      else middle = [].
Proof.
  intros text confirmation hidden stdin. unfold prompt.
  induction stdin as [|[line|] stdin IH]; intros evs v rest; simpl.
  - discriminate.
  - destruct (String.eqb_spec line "") as [->|Hne].
    + destruct (prompt_loop _ _ _ _ _ None stdin) as [[evs' out'] rest'] eqn:E. simpl.
      intros H. injection H as _ -> ->.
      destruct (IH _ _ _ eq_refl) as (blanks & s & middle & -> & Hb & Hs & Hv & Hm).
      exists (""%string :: blanks), s, middle. repeat split; auto.
    + destruct confirmation.
      * destruct (prompt_loop _ _ _ _ _ (Some _) stdin) as [[evs' out'] rest'] eqn:E. simpl.
        intros H. injection H as _ -> ->.
        destruct (prompt_confirmation_loop _ _ _ _ _ _ Hne E) as (-> & tries & -> & Ht).
        exists [], line, (map Line tries ++ [Line line]). repeat split; auto.
        -- simpl. now rewrite <- app_assoc.
        -- exists tries. split; auto.
      * simpl. intros H. injection H as _ <- <-.
        exists [], line, []. repeat split; auto.
  - discriminate.
Qed.

Lemma prompt_returns_first_entry_witness :
  exists blanks s middle,
    [Line ""; Line "bob"; Line "bab"; Line ""; Line "bob"; Line "x"]
    = map Line blanks ++ Line s :: middle ++ [Line "x"] /\
    Forall (fun t => t = ""%string) blanks /\
    s <> ""%string /\
    ArgStr "bob" = ArgStr s /\
    if true
    then exists tries, middle = map Line tries ++ [Line s] /\
                       Forall (fun t => t <> s) tries
    else middle = [].
Proof.
  apply (@prompt_returns_first_entry "Name" true false
           [Line ""; Line "bob"; Line "bab"; Line ""; Line "bob"; Line "x"]
           [Asked false "Name: "; Asked false "Name: "; Asked false "Name (again): ";
            Printed "Error: the two entered values do not match";
            Asked false "Name (again): "; Asked false "Name (again): "]
           (ArgStr "bob") [Line "x"]).
  reflexivity.
Defined.

(** With a value that is not a string to confirm, [prompt] never returns. *)
Lemma prompt_confirmation_of_non_string text default confirmation coerce hidden
  (result : PyArg) (stdin : list Key) evs v rest :
  (forall t, result <> ArgStr t) ->
  prompt_loop text default confirmation coerce hidden (Some result) stdin
  <> (evs, Ok v, rest).
Proof.
  intros Hr. revert evs. induction stdin as [|[line|] stdin IH]; intros evs; simpl.
  - discriminate.
  - assert (Heq : eq_str result line = false).
    { destruct result; simpl; auto. exfalso. eapply Hr; eauto. }
    rewrite Heq.
    destruct (String.eqb line "");
      destruct (prompt_loop _ _ _ _ _ _ stdin) as [[evs' out'] rest'] eqn:E; simpl;
      intros H; injection H as _ -> ->; eapply IH; eauto.
  - discriminate.
Qed.

(** X9. When a confirmation is asked for and [coerce] turns what is typed
    into something that is not a string (as [int] does), [prompt] can
    never return a typed value: the coerced value is compared with the
    raw line of the confirmation, which never equals it. The only value
    [prompt] can then return is the default. *)
Theorem prompt_cannot_confirm_coerced_value :
  forall (text : string) (default : option PyArg) (hidden : bool)
         (coerce : string -> PyResult PyArg) (stdin : list Key)
         (evs : list TermEvent) (v : PyArg) (rest : list Key),
    (forall s r, coerce s = Ok r -> forall t, r <> ArgStr t) ->
    prompt text default true (Some coerce) hidden stdin = (evs, Ok v, rest) ->
    default = Some v.
Proof.
  intros text default hidden coerce stdin evs v rest Hc. unfold prompt.
  revert evs. induction stdin as [|[line|] stdin IH]; intros evs; simpl.
  - discriminate.
  - destruct (String.eqb line "").
    + destruct default as [d|].
      * simpl. intros H. injection H as _ <- _. reflexivity.
      * destruct (prompt_loop _ _ _ _ _ None stdin) as [[evs' out'] rest'] eqn:E. simpl.
        intros H. injection H as _ -> ->. eapply IH; eauto.
    + destruct (coerce line) as [r|e] eqn:Ec.
      * destruct (prompt_loop _ _ _ _ _ (Some r) stdin) as [[evs' out'] rest'] eqn:E. simpl.
        intros H. injection H as _ -> ->.
        exfalso. eapply prompt_confirmation_of_non_string; [|exact E].
        eapply Hc; eauto.
      * destruct (String.eqb (exc_class e) "ValueError").
        -- destruct (prompt_loop _ _ _ _ _ None stdin) as [[evs' out'] rest'] eqn:E. simpl.
           intros H. injection H as _ -> ->. eapply IH; eauto.
        -- simpl. discriminate.
  - discriminate.
Qed.

Lemma prompt_cannot_confirm_coerced_value_witness :
  Some (ArgInt 7) = Some (ArgInt 7).
Proof.
  apply (@prompt_cannot_confirm_coerced_value "Port" (Some (ArgInt 7)) false
           (fun s => Ok (ArgInt (Z.of_nat (String.length s))))
           [Line ""; Line "80"] [Asked false "Port: "] (ArgInt 7) [Line "80"]).
  - intros s r H t. injection H as <-. discriminate.
  - reflexivity.
Defined.

Example prompt_int_with_confirmation_aborts :
  prompt "Port" None true (Some (fun s => Ok (ArgInt (Z.of_nat (String.length s))))) false
         [Line "80"; Line "80"; Line "2"]
  = ([Asked false "Port: "; Asked false "Port (again): ";
      Printed "Error: the two entered values do not match";
      Asked false "Port (again): ";
      Printed "Error: the two entered values do not match";
      Asked false "Port (again): "; ErrWritten (newline ++ "Aborted.")%string],
     Raise (SystemExit 1), []).
Proof. reflexivity. Qed.

(** X10. [nodiff] runs the function with [Diff.ACTIVE] off and does not
    put back the value it found: for a function that does not set the
    flag itself, the flag is on after the call exactly when the function
    returned, and stays off when it raised, whatever it was before. *)
Theorem nodiff_flag_after_call :
  forall (S A : Type) (func : World S -> PyResult A * World S) (w : World S),
    (forall w0, diff_active (snd (func w0)) = diff_active w0) ->
    fst (nodiff func w) = fst (func (mkWorld false (others w))) /\
    diff_active (snd (nodiff func w)) = is_ok (fst (nodiff func w)).
Proof.
  intros S A func w Hkeep. unfold nodiff.
  pose proof (Hkeep (mkWorld false (others w))) as Hk.
  destruct (func (mkWorld false (others w))) as [[res|e] w1]; simpl in *; auto.
Qed.

Lemma nodiff_flag_after_call_witness :
  fst (nodiff (fun w0 : World nat => (Raise boom : PyResult nat, w0)) (mkWorld true 3%nat))
  = fst ((fun w0 : World nat => (Raise boom : PyResult nat, w0)) (mkWorld false 3%nat)) /\
  diff_active (snd (nodiff (fun w0 : World nat => (Raise boom : PyResult nat, w0))
                           (mkWorld true 3%nat)))
  = is_ok (fst (nodiff (fun w0 : World nat => (Raise boom : PyResult nat, w0))
                       (mkWorld true 3%nat))).
Proof.
  apply (@nodiff_flag_after_call nat nat
           (fun w0 : World nat => (Raise boom : PyResult nat, w0)) (mkWorld true 3%nat)).
  intros w0. reflexivity.
Defined.

(** * The foreign keys of a model *)

Lemma dict_get_set {V : Type} (d : list (nat * V)) (k k' : nat) (v : V) :
  dict_get (dict_set d k v) k' = if Nat.eqb k k' then Some v else dict_get d k'.
Proof.
  induction d as [|[k0 v0] d IH]; simpl.
  - reflexivity.
  - destruct (Nat.eqb_spec k0 k) as [->|Hne]; simpl.
    + destruct (Nat.eqb k k'); reflexivity.
    + rewrite IH. destruct (Nat.eqb_spec k0 k') as [->|Hne'].
      * destruct (Nat.eqb_spec k k'); [congruence | reflexivity].
      * reflexivity.
Qed.

Lemma first_fk_app (rel : nat) (l1 l2 : list ModelField) :
  first_fk rel (l1 ++ l2) =
  match first_fk rel l1 with Some n => Some n | None => first_fk rel l2 end.
Proof.
  induction l1 as [|f l1 IH]; simpl; [reflexivity|].
  destruct (foreign_key f) as [[r nl]|]; [destruct (Nat.eqb r rel)|]; auto.
Qed.

Lemma first_fk_some (rel : nat) (l : list ModelField) (n : string) :
  first_fk rel l = Some n ->
  exists g nl, In g l /\ foreign_key g = Some (rel, nl) /\ field_name g = n.
Proof.
  induction l as [|f l IH]; simpl; [discriminate|].
  destruct (foreign_key f) as [[r nl]|] eqn:E.
  - destruct (Nat.eqb_spec r rel) as [->|Hne].
    + intros H. injection H as <-. exists f, nl. auto.
    + intros H. destruct (IH H) as (g & nl' & Hin & Hg & Hn). exists g, nl'. auto.
  - intros H. destruct (IH H) as (g & nl' & Hin & Hg & Hn). exists g, nl'. auto.
Qed.

Lemma first_fk_none (rel : nat) (l : list ModelField) g nl :
  first_fk rel l = None -> In g l -> foreign_key g <> Some (rel, nl).
Proof.
  induction l as [|f l IH]; simpl; [tauto|].
  intros H [->|Hin].
  - intros Hg. rewrite Hg, Nat.eqb_refl in H. discriminate.
  - apply IH; auto.
    destruct (foreign_key f) as [[r n]|]; [destruct (Nat.eqb r rel); [discriminate|]|]; auto.
Qed.

Lemma need_alias_loop_names (cls : nat) (todo done : list ModelField) fw acc :
  (forall rel, dict_get fw rel = if Nat.eqb rel cls then None else first_fk rel done) ->
  need_alias_loop cls todo fw acc = acc ++ alias_names_from cls done todo.
Proof.
  revert done fw acc. induction todo as [|f todo IH]; intros done fw acc Hinv; simpl.
  - now rewrite app_nil_r.
  - unfold alias_names. destruct (foreign_key f) as [[rel nl]|] eqn:Ef.
    + rewrite (Hinv rel). destruct (Nat.eqb_spec rel cls) as [->|Hne].
      * rewrite (IH (done ++ [f])), <- app_assoc; [reflexivity|].
        intros r. rewrite Hinv, first_fk_app. simpl. rewrite Ef.
        destruct (Nat.eqb_spec r cls) as [->|Hr]; [reflexivity|].
        destruct (Nat.eqb_spec cls r); [congruence|].
        destruct (first_fk r done); reflexivity.
      * destruct (first_fk rel done) as [first|] eqn:Efirst.
        -- rewrite (IH (done ++ [f])), <- app_assoc; [reflexivity|].
           intros r. rewrite Hinv, first_fk_app. simpl. rewrite Ef.
           destruct (Nat.eqb_spec r cls) as [->|Hr]; [reflexivity|].
           destruct (Nat.eqb_spec rel r) as [<-|Hrr].
           ++ now rewrite Efirst.
           ++ destruct (first_fk r done); reflexivity.
        -- rewrite (IH (done ++ [f])); [reflexivity|].
           intros r. rewrite dict_get_set, Hinv, first_fk_app. simpl. rewrite Ef.
           destruct (Nat.eqb_spec rel r) as [<-|Hrr].
           ++ destruct (Nat.eqb_spec rel cls); [congruence|]. now rewrite Efirst.
           ++ destruct (Nat.eqb r cls); [reflexivity|].
              destruct (first_fk r done); reflexivity.
    + rewrite (IH (done ++ [f])); [reflexivity|].
      intros r. rewrite Hinv, first_fk_app. simpl. rewrite Ef.
      destruct (Nat.eqb r cls); [reflexivity|].
      destruct (first_fk r done); reflexivity.
Qed.

Lemma alias_names_from_in (cls : nat) (n : string) (todo done : list ModelField) :
  In n (alias_names_from cls done todo) <->
  exists before f after,
    todo = before ++ f :: after /\ In n (alias_names cls (done ++ before) f).
Proof.
  revert done. induction todo as [|f todo IH]; intros done; simpl.
  - split; [tauto|]. intros (b & g & a & E & _). destruct b; discriminate.
  - rewrite in_app_iff, IH. split.
    + intros [H|(b & g & a & -> & H)].
      * exists [], f, todo. rewrite app_nil_r. auto.
      * exists (f :: b), g, a. rewrite <- app_assoc in H. auto.
    + intros (b & g & a & E & H). destruct b as [|f' b]; simpl in E; injection E as -> ->.
      * left. now rewrite app_nil_r in H.
      * right. exists b, g, a. rewrite <- app_assoc. auto.
Qed.

(** X11. A name is in the list [get_fk_need_alias_fields] returns exactly
    when it is the name of a foreign key that points to the model itself,
    or that points to a model another foreign key of the class points to
    as well. *)
Theorem need_alias_iff_shared_or_self :
  forall (cls : nat) (fields : list ModelField) (n : string),
    In n (get_fk_need_alias_fields cls fields) <->
    exists before f after rel nl,
      fields = before ++ f :: after /\
      field_name f = n /\
      foreign_key f = Some (rel, nl) /\
      (rel = cls \/
       exists g nl', In g (before ++ after) /\ foreign_key g = Some (rel, nl')).
Proof.
  intros cls fields n. unfold get_fk_need_alias_fields.
  rewrite (@need_alias_loop_names cls fields [] [] []) by
    (intros rel; simpl; destruct (Nat.eqb rel cls); reflexivity).
  simpl. rewrite alias_names_from_in. simpl. split.
  - intros (before & f & after & -> & Hin). unfold alias_names in Hin.
    destruct (foreign_key f) as [[rel nl]|] eqn:Ef; [|contradiction].
    destruct (Nat.eqb_spec rel cls) as [->|Hne].
    + destruct Hin as [<-|[]]. exists before, f, after, cls, nl. auto.
    + destruct (first_fk rel before) as [first|] eqn:Efirst; [|contradiction].
      destruct (first_fk_some _ _ Efirst) as (g & nl' & Hg & Hfk & Hname).
      destruct Hin as [<-|[<-|[]]].
      * exists before, f, after, rel, nl. repeat split; auto.
        right. exists g, nl'. rewrite in_app_iff. auto.
      * apply in_split in Hg. destruct Hg as (b1 & b2 & ->).
        exists b1, g, (b2 ++ f :: after), rel, nl'. rewrite <- app_assoc.
        repeat split; auto. right. exists f, nl. rewrite !in_app_iff. simpl. auto.
  - intros (before & f & after & rel & nl & -> & <- & Ef & Hwhy).
    destruct (Nat.eqb_spec rel cls) as [->|Hne].
    + exists before, f, after. split; [reflexivity|].
      unfold alias_names. rewrite Ef, Nat.eqb_refl. simpl. auto.
    + destruct Hwhy as [->|(g & nl' & Hg & Hfk)]; [congruence|].
      destruct (first_fk rel before) as [first|] eqn:Efirst.
      * exists before, f, after. split; [reflexivity|].
        unfold alias_names. rewrite Ef, Efirst.
        destruct (Nat.eqb_spec rel cls); [congruence|]. simpl. auto.
      * apply in_app_or in Hg. destruct Hg as [Hg|Hg].
        -- exfalso. exact (first_fk_none _ _ Efirst Hg Hfk).
        -- apply in_split in Hg. destruct Hg as (a1 & a2 & ->).
           exists (before ++ f :: a1), g, a2. split; [now rewrite <- app_assoc|].
           unfold alias_names. rewrite Hfk.
           destruct (Nat.eqb_spec rel cls); [congruence|].
           rewrite first_fk_app, Efirst. simpl. rewrite Ef, Nat.eqb_refl. simpl. auto.
Qed.

Example need_alias_of_a_position :
  get_fk_need_alias_fields 0
    [mkField "name" None; mkField "housenumber" (Some (1, false));
     mkField "parent" (Some (0, true)); mkField "source" (Some (2, false));
     mkField "center" (Some (1, true))]%nat
  = ["parent"; "center"; "housenumber"]%string.
Proof. reflexivity. Qed.

(** * Resource classes *)

Lemma in_list_true (name : string) (l : list string) :
  in_list name l = true <-> In name l.
Proof.
  unfold in_list. rewrite existsb_exists. split.
  - intros (x & Hin & Heq). apply String.eqb_eq in Heq. now subst.
  - intros Hin. exists name. split; [assumption | apply String.eqb_refl].
Qed.

Lemma BaseResource_new_built (decl : ClassDecl) (inh : Inherited) (c : ResourceClass) :
  BaseResource_new decl inh = Ok c ->
  respects_exclusions c /\
  (forall l, inh_resource_fields inh = Some l -> incl l (resource_fields c)) /\
  (forall l, inh_exclude_for_collection inh = Some l ->
             exists l', exclude_for_collection c = Some l' /\ incl l l') /\
  (forall l, inh_exclude_for_version inh = Some l ->
             exists l', exclude_for_version c = Some l' /\ incl l l') /\
  (exists kept, collection_fields c = kept ++ ["resource"%string] /\
                incl kept (resource_fields c)) /\
  incl (versioned_fields c) (resource_fields c).
Proof.
  unfold BaseResource_new.
  set (rf := inherit_and_extend (decl_resource_fields decl) (inh_resource_fields inh)).
  set (efc := inherit_and_extend (decl_exclude_for_collection decl)
                                 (inh_exclude_for_collection inh)).
  set (efv := inherit_and_extend (decl_exclude_for_version decl)
                                 (inh_exclude_for_version inh)).
  assert (Hext : forall d i l, i = Some l ->
            exists l', inherit_and_extend d i = Some l' /\ incl l l').
  { intros d i l ->. destruct d as [dl|]; simpl.
    - exists (dl ++ l). split; [reflexivity | apply incl_appr, incl_refl].
    - exists l. split; [reflexivity | apply incl_refl]. }
  assert (Hrf : forall l, inh_resource_fields inh = Some l ->
                          exists l', rf = Some l' /\ incl l l') by (intros; now apply Hext).
  assert (Hefc : forall l, inh_exclude_for_collection inh = Some l ->
                           exists l', efc = Some l' /\ incl l l') by (intros; now apply Hext).
  assert (Hefv : forall l, inh_exclude_for_version inh = Some l ->
                           exists l', efv = Some l' /\ incl l l') by (intros; now apply Hext).
  clearbody rf efc efv.
  destruct rf as [[|f fields]|]; [| |discriminate].
  - intros H. injection H as <-. simpl. repeat split; simpl; auto.
    + intros xc n _ _ Hn [Hin|[]]. congruence.
    + intros l Hl. destruct (Hrf l Hl) as (l' & E & Hi). now injection E as <-.
    + exists []. split; [reflexivity | apply incl_refl].
    + apply incl_refl.
  - destruct efc as [xc|]; [|discriminate]. destruct efv as [xv|]; [|discriminate].
    set (fs := f :: fields) in *. clearbody fs.
    intros H. injection H as <-. simpl. repeat split; simpl; auto.
    + intros xc' n E Hin Hn Hc. injection E as <-.
      apply in_app_or in Hc. destruct Hc as [Hc|[Hc|[]]]; [|congruence].
      apply filter_In in Hc. destruct Hc as [_ Hc].
      unfold include_field_for_collection in Hc.
      apply in_list_true in Hin. rewrite Hin in Hc. discriminate.
    + intros xv' n E Hin Hc. injection E as <-.
      apply filter_In in Hc. destruct Hc as [_ Hc].
      apply in_list_true in Hin. rewrite Hin in Hc. discriminate.
    + intros l Hl. destruct (Hrf l Hl) as (l' & E & Hi). now injection E as <-.
    + eexists. split; [reflexivity|]. intros n Hn. apply filter_In in Hn. tauto.
    + intros n Hn. apply filter_In in Hn. tauto.
Qed.

Lemma derives_from_keeps (decl : ClassDecl) (inh : Inherited) (root c : ResourceClass) :
  BaseResource_new decl inh = Ok root ->
  derives_from root c ->
  respects_exclusions c /\
  incl (resource_fields root) (resource_fields c) /\
  (forall l, exclude_for_collection root = Some l ->
             exists l', exclude_for_collection c = Some l' /\ incl l l') /\
  (forall l, exclude_for_version root = Some l ->
             exists l', exclude_for_version c = Some l' /\ incl l l') /\
  exists kept, collection_fields c = kept ++ ["resource"%string].
Proof.
  intros Hroot Hder.
  induction Hder as [|parent d child Hder IH Hnew].
  - destruct (BaseResource_new_built _ _ Hroot) as (Hr & _ & _ & _ & (kept & Hk & _) & _).
    split; [exact Hr|]. split; [apply incl_refl|].
    split; [|split]; [| |eauto]; intros l E; exists l; split; auto using incl_refl.
  - destruct IH as (_ & Hrf & Hxc & Hxv & _).
    destruct (BaseResource_new_built _ _ Hnew)
      as (Hr & Hirf & Hixc & Hixv & (kept & Hk & _) & _).
    split; [exact Hr|]. split.
    + eapply incl_tran; [exact Hrf | apply Hirf; reflexivity].
    + split; [|split]; [| |eauto]; intros l E.
      * destruct (Hxc l E) as (l1 & E1 & Hi1).
        destruct (Hixc l1 E1) as (l2 & E2 & Hi2).
        exists l2. split; [exact E2 | eapply incl_tran; eauto].
      * destruct (Hxv l E) as (l1 & E1 & Hi1).
        destruct (Hixv l1 E1) as (l2 & E2 & Hi2).
        exists l2. split; [exact E2 | eapply incl_tran; eauto].
Qed.

(** X12. A class built by [BaseResource] keeps what its ancestors
    declared: through any chain of class statements the resource fields
    of an ancestor remain resource fields, a name an ancestor excluded
    from collections (other than [resource], which is always added) is in
    no descendant's collection fields, and a name an ancestor excluded
    from versions is in no descendant's versioned fields, whatever the
    descendants declare. *)
Theorem exclusions_are_never_lifted :
  forall (decl : ClassDecl) (inh : Inherited) (root c : ResourceClass),
    BaseResource_new decl inh = Ok root ->
    derives_from root c ->
    incl (resource_fields root) (resource_fields c) /\
    (forall xc n, exclude_for_collection root = Some xc -> In n xc ->
                  n <> "resource"%string -> ~ In n (collection_fields c)) /\
    (forall xv n, exclude_for_version root = Some xv -> In n xv ->
                  ~ In n (versioned_fields c)).
Proof.
  intros decl inh root c Hroot Hder.
  destruct (@derives_from_keeps decl inh root c Hroot Hder) as ((Hc1 & Hc2) & Hrf & Hxc & Hxv & _).
  split; [exact Hrf|]. split.
  - intros xc n E Hin Hn. destruct (Hxc xc E) as (l' & E' & Hi).
    apply (Hc1 l' n E' (Hi n Hin) Hn).
  - intros xv n E Hin. destruct (Hxv xv E) as (l' & E' & Hi).
    apply (Hc2 l' n E' (Hi n Hin)).
Qed.

Example ResourceModel_lists :
  ResourceModel
  = Ok (mkResourceClass ["id"; "status"] (Some ["status"]) (Some [])
                        ["id"; "resource"] ["id"; "status"])%string.
Proof. reflexivity. Qed.

(** A housenumber-like class: it declares fields and exclusions of its own. *)
Example derived_class_lists :
  BaseResource_new
    (mkDecl (Some ["number"; "ordinal"; "positions"]%string) (Some ["ordinal"%string]) None
            (fun name => if in_list name ["positions"]%string then SelectQueryAttr
                         else OtherAttr))
    (hand_down (mkResourceClass ["id"; "status"] (Some ["status"]) (Some [])
                                ["id"; "resource"] ["id"; "status"])%string)
  = Ok (mkResourceClass ["number"; "ordinal"; "positions"; "id"; "status"]
                        (Some ["ordinal"; "status"]) (Some [])
                        ["number"; "id"; "resource"]
                        ["number"; "ordinal"; "positions"; "id"; "status"])%string.
Proof. reflexivity. Qed.

Lemma exclusions_are_never_lifted_witness :
  incl ["id"; "status"]%string
       ["number"; "ordinal"; "positions"; "id"; "status"]%string /\
  (forall xc n, Some ["status"%string] = Some xc -> In n xc ->
                n <> "resource"%string -> ~ In n ["number"; "id"; "resource"]%string) /\
  (forall xv n, @Some (list string) [] = Some xv -> In n xv ->
                ~ In n ["number"; "ordinal"; "positions"; "id"; "status"]%string).
Proof.
  apply (@exclusions_are_never_lifted ResourceModel_decl (mkInherited None None None)
           (mkResourceClass ["id"; "status"] (Some ["status"]) (Some [])
                            ["id"; "resource"] ["id"; "status"])%string
           (mkResourceClass ["number"; "ordinal"; "positions"; "id"; "status"]
                            (Some ["ordinal"; "status"]) (Some [])
                            ["number"; "id"; "resource"]
                            ["number"; "ordinal"; "positions"; "id"; "status"])%string).
  - reflexivity.
  - eapply derives_step; [apply derives_self | exact derived_class_lists].
Defined.

(** X13. Every class that derives from [ResourceModel] has [id] and
    [status] among its resource fields, never lists [status] in its
    collection fields, and ends its collection fields with [resource]. *)
Theorem resource_classes_hide_status :
  forall (root c : ResourceClass),
    ResourceModel = Ok root ->
    derives_from root c ->
    In "id"%string (resource_fields c) /\
    In "status"%string (resource_fields c) /\
    ~ In "status"%string (collection_fields c) /\
    last (collection_fields c) ""%string = "resource"%string.
Proof.
  intros root c Hroot Hder.
  destruct (@derives_from_keeps _ _ root c Hroot Hder) as ((Hc1 & _) & Hrf & Hxc & _ & (kept & Hk)).
  unfold ResourceModel in Hroot. simpl in Hroot. injection Hroot as <-.
  simpl in *.
  split; [apply Hrf; simpl; auto|]. split; [apply Hrf; simpl; auto|]. split.
  - destruct (Hxc _ eq_refl) as (l' & E' & Hi).
    apply (Hc1 l' _ E'); [apply Hi; simpl; auto | discriminate].
  - rewrite Hk. apply last_last.
Qed.

Lemma resource_classes_hide_status_witness :
  In "id"%string ["number"; "ordinal"; "positions"; "id"; "status"]%string /\
  In "status"%string ["number"; "ordinal"; "positions"; "id"; "status"]%string /\
  ~ In "status"%string ["number"; "id"; "resource"]%string /\
  last ["number"; "id"; "resource"]%string ""%string = "resource"%string.
Proof.
  apply (@resource_classes_hide_status
           (mkResourceClass ["id"; "status"] (Some ["status"]) (Some [])
                            ["id"; "resource"] ["id"; "status"])%string
           (mkResourceClass ["number"; "ordinal"; "positions"; "id"; "status"]
                            (Some ["ordinal"; "status"]) (Some [])
                            ["number"; "id"; "resource"]
                            ["number"; "ordinal"; "positions"; "id"; "status"])%string).
  - reflexivity.
  - eapply derives_step; [apply derives_self | exact derived_class_lists].
Defined.

(** * [ResourceModel.adapt] *)

Lemma split_on_nonempty (sep : ascii) (s : string) : split_on sep s <> [].
Proof.
  induction s as [|c s IH]; simpl; [discriminate|].
  destruct (Ascii.eqb c sep); [discriminate|].
  destruct (split_on sep s); [congruence | discriminate].
Qed.

Lemma split_on_free (sep : ascii) (s : string) :
  has_char sep s = false -> split_on sep s = [s].
Proof.
  induction s as [|c s IH]; simpl; [reflexivity|].
  destruct (Ascii.eqb c sep); simpl; [discriminate|].
  intros H. now rewrite IH.
Qed.

Lemma split_on_first (sep : ascii) (a b : string) :
  has_char sep a = false ->
  split_on sep (a ++ String sep b) = a :: split_on sep b.
Proof.
  induction a as [|c a IH]; simpl.
  - intros _. now rewrite Ascii.eqb_refl.
  - destruct (Ascii.eqb c sep); simpl; [discriminate|].
    intros H. now rewrite IH.
Qed.

(** The parts of a string made of colon-free parts joined by colons. *)
Lemma split_on_joined (first : string) (others : list string) :
  has_char ":" first = false ->
  Forall (fun p => has_char ":" p = false) others ->
  split_on ":" (String.concat ":" (first :: others)) = first :: others.
Proof.
  revert first. induction others as [|p others IH]; intros first Hf Ho.
  - simpl. now apply split_on_free.
  - inversion Ho; subst.
    change (String.concat ":" (first :: p :: others))
      with (first ++ String ":" (String.concat ":" (p :: others)))%string.
    rewrite split_on_first by assumption. f_equal. now apply IH.
Qed.

(** X14. A string made of an identifier, any number of further parts and
    a key, joined by colons, is adapted like the key with that identifier
    named in the call, as long as the identifier is one the class
    allows: only the first and the last part count. *)
Theorem adapt_reads_first_and_last_part :
  forall (Instance : Type) (cls : ResourceCls Instance)
         (ident key : string) (middle : list string) (level1 : Z),
    has_char ":" ident = false ->
    has_char ":" key = false ->
    Forall (fun p => has_char ":" p = false) middle ->
    ident <> ""%string ->
    In ident (identifiers cls ++ ["id"; "pk"]%string) ->
    adapt cls (GivenId (IdStr (String.concat ":" (ident :: middle ++ [key])))) None level1
    = adapt cls (GivenId (IdStr key)) (Some ident) level1.
Proof.
  intros Instance cls ident key middle level1 Hi Hk Hm Hne Hin.
  unfold adapt.
  destruct (String.eqb_spec ident "") as [->|_]; [congruence|].
  unfold split_identifier.
  rewrite split_on_joined; [|assumption|apply Forall_app; auto].
  rewrite app_comm_cons, removelast_last, last_last.
  apply in_list_true in Hin. now rewrite Hin.
Qed.

Lemma adapt_reads_first_and_last_part_witness :
  adapt sample_cls (GivenId (IdStr (String.concat ":" ("id" :: ["x"] ++ ["ban-1"])%string)))
        None 0
  = adapt sample_cls (GivenId (IdStr "ban-1")) (Some "id"%string) 0.
Proof.
  apply (@adapt_reads_first_and_last_part nat sample_cls "id" "ban-1" ["x"%string] 0).
  - reflexivity.
  - reflexivity.
  - repeat constructor.
  - discriminate.
  - simpl. auto.
Defined.

(** X15. On a class without [auth] and with [level1] other than 1, an
    id that names the primary key is not looked up at all: an integer,
    or a string that starts with [pk:], comes back as it is (the string
    without its prefix), whether or not a row has that key, and is not a
    model instance. *)
Theorem adapt_returns_primary_key_unchecked :
  forall (Instance : Type) (cls : ResourceCls Instance) (level1 : Z),
    has_auth cls = false ->
    level1 <> 1 ->
    (forall n, adapt cls (GivenId (IdInt n)) None level1 = Unchanged (IdInt n)) /\
    (forall key, has_char ":" key = false ->
       adapt cls (GivenId (IdStr ("pk:" ++ key))) None level1 = Unchanged (IdStr key)).
Proof.
  intros Instance cls level1 Hauth Hl.
  assert (Hlook : forall v, adapt_lookup cls "pk" v level1 = Unchanged v).
  { intros v. unfold adapt_lookup. rewrite Hauth.
    replace (level1 =? 1) with false by (symmetry; apply Z.eqb_neq; exact Hl).
    reflexivity. }
  split.
  - intros n. simpl. apply Hlook.
  - intros key Hk. unfold adapt, split_identifier.
    change ("pk:" ++ key)%string with ("pk" ++ String ":" key)%string.
    rewrite split_on_first by reflexivity. rewrite (split_on_free _ _ Hk).
    simpl removelast. simpl last. cbv iota.
    assert (Hin : in_list "pk" (identifiers cls ++ ["id"; "pk"]%string) = true).
    { apply in_list_true. rewrite in_app_iff. right. simpl. auto. }
    rewrite Hin. apply Hlook.
Qed.

Lemma adapt_returns_primary_key_unchecked_witness :
  (forall n, adapt sample_cls (GivenId (IdInt n)) None 0 = Unchanged (IdInt n)) /\
  (forall key, has_char ":" key = false ->
     adapt sample_cls (GivenId (IdStr ("pk:" ++ key))) None 0 = Unchanged (IdStr key)).
Proof.
  apply (@adapt_returns_primary_key_unchecked nat sample_cls 0); [reflexivity | lia].
Defined.

(** X16. When the query [adapt] runs finds no row, what is raised depends
    on the redirects recorded for the identifier and the id: none, and
    the [DoesNotExist] of the query is raised again; one, and a
    [RedirectError] names it; several, and a [MultipleRedirectsError]
    lists them. An identifier named in the call is used as given. *)
Theorem adapt_missing_row_follows_redirects :
  forall (Instance : Type) (cls : ResourceCls Instance)
         (identifier : string) (id : IdValue) (level1 : Z) (e : PyExc),
    identifier <> ""%string ->
    (has_auth cls = true \/ level1 = 1 \/ identifier <> pk_name) ->
    (forall kind, get cls kind identifier id = Raise e) ->
    exc_class e = "DoesNotExist"%string ->
    adapt cls (GivenId id) (Some identifier) level1
    = match follow cls identifier id with
      | [] => RaisedDoesNotExist e
      | [redirect] => RaisedRedirect identifier id redirect
      | redirects => RaisedMultipleRedirects identifier id redirects
      end.
Proof.
  intros Instance cls identifier id level1 e Hne Hwhy Hget Hcls.
  unfold adapt. destruct (String.eqb_spec identifier "") as [->|_]; [congruence|].
  unfold adapt_lookup. rewrite !Hget.
  assert (Hpick :
    (if (negb (has_auth cls) && negb (level1 =? 1)
         && negb (String.eqb identifier pk_name))%bool
     then @RaisedOther Instance e
     else if (negb (has_auth cls) && negb (level1 =? 1)
              && String.eqb identifier pk_name)%bool
          then Unchanged id
          else if level1 =? 1 then RaisedOther e else RaisedOther e)
    = RaisedOther e).
  { destruct (has_auth cls); simpl; [destruct (level1 =? 1); reflexivity|].
    destruct (Z.eqb_spec level1 1); simpl; [reflexivity|].
    destruct (String.eqb_spec identifier pk_name); simpl; [|reflexivity].
    destruct Hwhy as [H|[H|H]]; congruence. }
  rewrite Hpick, Hcls. reflexivity.
Qed.

Lemma adapt_missing_row_follows_redirects_witness :
  adapt sample_cls (GivenId (IdStr "ban-9")) (Some "id"%string) 0
  = match follow sample_cls "id" (IdStr "ban-9") with
    | [] => RaisedDoesNotExist (mkExc "DoesNotExist" [])
    | [redirect] => RaisedRedirect "id" (IdStr "ban-9") redirect
    | redirects => RaisedMultipleRedirects "id" (IdStr "ban-9") redirects
    end.
Proof.
  apply (@adapt_missing_row_follows_redirects nat sample_cls "id" (IdStr "ban-9") 0
           (mkExc "DoesNotExist" [])).
  - discriminate.
  - right. right. discriminate.
  - intros kind. reflexivity.
  - reflexivity.
Defined.

Example adapt_old_id : adapt sample_cls (GivenId (IdStr "ban-0")) None 0
                       = RaisedRedirect "id" (IdStr "ban-0") "ban-1".
Proof. reflexivity. Qed.

Example adapt_bad_prefix :
  adapt sample_cls (GivenId (IdStr "insee:12345")) None 0
  = RaisedDoesNotExist (mkExc "DoesNotExist" [ArgStr "Invalid identifier insee"]).
Proof. reflexivity. Qed.

(** * Field coercions *)

Example str_int_samples :
  str_int 0 = "0"%string /\ str_int 1000 = "1000"%string /\
  str_int 75011 = "75011"%string /\ str_int (-42) = "-42"%string.
Proof. repeat split; reflexivity. Qed.

Lemma string_length_app (a b : string) :
  String.length (a ++ b) = (String.length a + String.length b)%nat.
Proof. induction a as [|c a IH]; simpl; [reflexivity | now rewrite IH]. Qed.

Lemma all_digits_app (a b : string) :
  all_digits (a ++ b) = (all_digits a && all_digits b)%bool.
Proof.
  induction a as [|c a IH]; simpl; [reflexivity|].
  now rewrite IH, Bool.andb_assoc.
Qed.

Lemma isdigit_digit_char (d : Z) : 0 <= d < 10 -> isdigit_char (digit_char d) = true.
Proof.
  intros Hd. assert (Hc : d = 0 \/ d = 1 \/ d = 2 \/ d = 3 \/ d = 4 \/ d = 5 \/ d = 6
                          \/ d = 7 \/ d = 8 \/ d = 9) by lia.
  repeat (destruct Hc as [->|Hc]; [reflexivity|]). subst. reflexivity.
Qed.

Lemma decimal_digits_all (fuel : nat) (n : Z) :
  0 <= n -> all_digits (decimal_digits fuel n) = true.
Proof.
  revert n. induction fuel as [|fuel IH]; intros n Hn; cbn [decimal_digits]; [reflexivity|].
  destruct (Z.ltb_spec n 10).
  - cbn [all_digits]. rewrite isdigit_digit_char by lia. reflexivity.
  - rewrite all_digits_app, IH by (apply Z.div_pos; lia). cbn [all_digits].
    rewrite isdigit_digit_char by (apply Z.mod_pos_bound; lia). reflexivity.
Qed.

(** A number of [k + 1] decimal digits prints as [k + 1] characters. *)
Lemma decimal_digits_length (k fuel : nat) (n : Z) :
  (k < fuel)%nat ->
  (10 ^ Z.of_nat k <= n \/ (k = O /\ 0 <= n)) ->
  n < 10 ^ Z.of_nat (S k) ->
  String.length (decimal_digits fuel n) = S k.
Proof.
  revert fuel n. induction k as [|k IH]; intros fuel n Hf Hlo Hhi;
    (destruct fuel as [|fuel]; [lia|]); cbn [decimal_digits].
  - change (10 ^ Z.of_nat 1) with 10 in Hhi.
    destruct (Z.ltb_spec n 10); [reflexivity | lia].
  - destruct Hlo as [Hlo|[Hk _]]; [|discriminate].
    rewrite Nat2Z.inj_succ, Z.pow_succ_r in Hlo by lia.
    assert (Hpos : 0 < 10 ^ Z.of_nat k) by (apply Z.pow_pos_nonneg; lia).
    destruct (Z.ltb_spec n 10); [lia|].
    rewrite string_length_app. cbn [String.length].
    rewrite (IH fuel (n / 10)); [lia | lia | |].
    + left. apply Z.div_le_lower_bound; lia.
    + apply Z.div_lt_upper_bound; [lia|].
      rewrite (Nat2Z.inj_succ (S k)), Z.pow_succ_r in Hhi by lia. exact Hhi.
Qed.

(** A number of at least [10^k] prints as more than [k] characters, as
    long as the loop has a turn for each of its binary digits. *)
Lemma decimal_digits_length_ge (k fuel : nat) (n : Z) :
  10 ^ Z.of_nat k <= n -> n < 2 ^ Z.of_nat fuel ->
  (S k <= String.length (decimal_digits fuel n))%nat.
Proof.
  revert fuel n. induction k as [|k IH]; intros fuel n Hlo Hhi.
  - change (10 ^ Z.of_nat 0) with 1 in Hlo.
    destruct fuel as [|fuel]; [change (2 ^ Z.of_nat 0) with 1 in Hhi; lia|].
    cbn [decimal_digits]. destruct (n <? 10).
    + cbn [String.length]. lia.
    + rewrite string_length_app. cbn [String.length]. lia.
  - rewrite Nat2Z.inj_succ, Z.pow_succ_r in Hlo by lia.
    assert (Hpos : 0 < 10 ^ Z.of_nat k) by (apply Z.pow_pos_nonneg; lia).
    destruct fuel as [|fuel]; [change (2 ^ Z.of_nat 0) with 1 in Hhi; lia|].
    rewrite Nat2Z.inj_succ, Z.pow_succ_r in Hhi by lia.
    cbn [decimal_digits]. destruct (Z.ltb_spec n 10); [lia|].
    rewrite string_length_app. cbn [String.length].
    assert (Hrec : (S k <= String.length (decimal_digits fuel (n / 10)))%nat).
    { apply IH.
      - apply Z.div_le_lower_bound; lia.
      - apply Z.div_lt_upper_bound; lia. }
    lia.
Qed.

Lemma log2_fuel (n : Z) : 0 < n -> n < 2 ^ Z.of_nat (S (Z.to_nat (Z.log2 n))).
Proof.
  intros Hn. rewrite Nat2Z.inj_succ, Z2Nat.id by apply Z.log2_nonneg.
  apply Z.log2_spec. exact Hn.
Qed.

Lemma str_int_length (k : nat) (n : Z) :
  (10 ^ Z.of_nat k <= n \/ (k = O /\ 0 <= n)) ->
  n < 10 ^ Z.of_nat (S k) ->
  String.length (str_int n) = S k.
Proof.
  intros Hlo Hhi. unfold str_int.
  assert (Hn : 0 <= n).
  { destruct Hlo as [Hlo|[_ Hlo]]; [|exact Hlo].
    assert (0 < 10 ^ Z.of_nat k) by (apply Z.pow_pos_nonneg; lia). lia. }
  replace (n <? 0) with false by (symmetry; apply Z.ltb_ge; exact Hn).
  apply decimal_digits_length; auto.
  destruct Hlo as [Hlo|[-> _]]; [|lia].
  assert (Hk : Z.of_nat k <= Z.log2 n).
  { transitivity (Z.log2 (2 ^ Z.of_nat k)).
    - rewrite Z.log2_pow2 by lia. lia.
    - apply Z.log2_le_mono. transitivity (10 ^ Z.of_nat k); [|exact Hlo].
      apply Z.pow_le_mono_l. lia. }
  lia.
Qed.

(** X17. [PostCodeField.coerce] accepts an integer exactly when it lies
    between 10000 and 99999: a postcode that starts with a zero is
    refused when it is given as a number, and so is a negative number. *)
Theorem postcode_from_integer :
  forall n : Z,
    (exists s, PostCodeField_coerce (ArgInt n) = Ok s) <-> 10000 <= n <= 99999.
Proof.
  intros n. unfold PostCodeField_coerce. cbn [py_str]. split.
  - intros (s & H).
    destruct (Nat.eqb_spec (String.length (str_int n)) 5) as [Hlen|Hlen];
      [|discriminate].
    destruct (py_isdigit (str_int n)) eqn:Hdig; [|discriminate].
    destruct (Z.ltb_spec n 0) as [Hneg|Hpos].
    + unfold str_int in Hdig.
      replace (n <? 0) with true in Hdig by (symmetry; apply Z.ltb_lt; exact Hneg).
      discriminate.
    + destruct (Z.ltb_spec n 10).
      { rewrite (@str_int_length 0 n) in Hlen by (simpl; lia). discriminate. }
      destruct (Z.ltb_spec n 100).
      { rewrite (@str_int_length 1 n) in Hlen by (simpl; lia). discriminate. }
      destruct (Z.ltb_spec n 1000).
      { rewrite (@str_int_length 2 n) in Hlen by (simpl; lia). discriminate. }
      destruct (Z.ltb_spec n 10000).
      { rewrite (@str_int_length 3 n) in Hlen by (simpl; lia). discriminate. }
      destruct (Z.ltb_spec n 100000); [lia|].
      exfalso.
      assert (H5 : 10 ^ Z.of_nat 5 <= n) by (change (10 ^ Z.of_nat 5) with 100000; lia).
      assert (Hn0 : 0 < n) by lia.
      pose proof (@decimal_digits_length_ge 5 (S (Z.to_nat (Z.log2 n))) n
                    H5 (log2_fuel Hn0)) as Hge.
      unfold str_int in Hlen.
      replace (n <? 0) with false in Hlen by (symmetry; apply Z.ltb_ge; exact Hpos).
      lia.
  - intros Hn. exists (str_int n).
    rewrite (@str_int_length 4 n) by (simpl; lia). cbn [Nat.eqb negb orb].
    assert (Hdig : py_isdigit (str_int n) = true).
    { pose proof (@str_int_length 4 n ltac:(simpl; lia) ltac:(simpl; lia)) as Hlen.
      unfold py_isdigit. destruct (str_int n) eqn:E; [discriminate|].
      rewrite <- E. unfold str_int.
      replace (n <? 0) with false by (symmetry; apply Z.ltb_ge; lia).
      apply decimal_digits_all. lia. }
    rewrite Hdig. reflexivity.
Qed.

Example postcode_samples :
  PostCodeField_coerce (ArgStr "01000") = Ok "01000"%string /\
  PostCodeField_coerce (ArgInt 75011) = Ok "75011"%string /\
  PostCodeField_coerce (ArgInt 1000)
  = Raise (ValueError ("Invalid postcode " ++ double_quote ++ "1000" ++ double_quote)) /\
  PostCodeField_coerce ArgNone
  = Raise (ValueError ("Invalid postcode " ++ double_quote ++ "None" ++ double_quote)).
Proof. repeat split; reflexivity. Qed.

(** X18. [ArrayField.coerce] wraps a value that is true and neither a
    list nor a tuple in a list of one item, and leaves every other value
    as it is: what it returns is a list, a tuple, or the false value it
    was given ([None], [0], the empty string), and coercing twice changes
    nothing more. *)
Theorem array_coerce_wraps_true_scalars :
  forall v : PyValue,
    ArrayField_coerce (ArrayField_coerce v) = ArrayField_coerce v /\
    (is_list_or_tuple (ArrayField_coerce v) = true \/
     (truthy v = false /\ ArrayField_coerce v = v)).
Proof.
  intros v. unfold ArrayField_coerce.
  destruct (truthy v) eqn:Ht; destruct (is_list_or_tuple v) eqn:Hl; simpl;
    rewrite ?Ht, ?Hl; simpl; auto.
Qed.
